(** * Yupoo.py: a shallow embedding of the gallery crawler

    The script crawls a two-level paginated photo gallery (category pages
    listing albums, album pages listing images) and stores every image
    under [Images/<category>/<album>/<page>_<title>.jpg].

    Part I embeds the script, function by function and in source order,
    on top of small models of what it imports: Python strings, the
    BeautifulSoup tree, the file system, the HTTP session and [print].
    Part II states and proves the properties; Part III runs them on
    concrete inputs.

    Modelling choices:
    - Python strings are sequences of Unicode code points, here lists of
      [N].  The character classes of the Unicode database ([str.isalnum],
      [str.isspace], the decimal digits behind [\d] and [int]) belong to
      the Python runtime, not to the script: they are the fields of the
      class [Runtime], and the properties hold for every runtime unless
      they say what they need of it.
    - A computation takes a world (input table, directories, files,
      pending network replies, trace of events) and gives an outcome, a
      value or a raised exception, with the new world.
    - The network is a list of replies, consumed one per request.  What
      the session does inside one [get] (its own retries, the referer
      header, the time-out) is part of the reply.
    - The thread pool is run one item after the other, in list order.
    - Paths are POSIX paths.  The calls [makedirs], [open] and [write]
      are modelled when they succeed: an [OSError] of theirs, and an
      [input.csv] that cannot be read or decoded, have no counterpart.
      A statement that needs a call to succeed says of which world it
      speaks (a folder that exists, a file read as a table). *)

From Stdlib Require Import NArith List String Ascii DecimalN.
From stdpp Require Import gmap list.

Local Open Scope N_scope.

(** * Part I: the embedding *)

(** ** Python strings *)

Abbreviation char := N (only parsing).
Abbreviation str := (list N) (only parsing).

(** A string literal of the script (ASCII only) as code points. *)
Definition lit (x : string) : str :=
  List.map N_of_ascii (list_ascii_of_string x).

Definition SPACE : char := 32.
Definition UNDERSCORE : char := 95.
Definition SLASH : char := 47.
(** U+5171 and U+9875, the two ideographs around the page count. *)
Definition GONG : char := 20849.
Definition YE : char := 39029.

(** [a.startswith(b)] *)
Fixpoint startswith (a b : str) : bool :=
  match b, a with
  | [], _ => true
  | y :: b', x :: a' => (x =? y) && startswith a' b'
  | _ :: _, [] => false
  end.

(** [a.endswith(b)] *)
Definition endswith (a b : str) : bool := startswith (rev a) (rev b).

(** [str(n)] and [f"{n}"] for a non-negative integer: its decimal digits. *)
Fixpoint digits_of_uint (d : Decimal.uint) : str :=
  match d with
  | Decimal.Nil => []
  | Decimal.D0 d => 48 :: digits_of_uint d
  | Decimal.D1 d => 49 :: digits_of_uint d
  | Decimal.D2 d => 50 :: digits_of_uint d
  | Decimal.D3 d => 51 :: digits_of_uint d
  | Decimal.D4 d => 52 :: digits_of_uint d
  | Decimal.D5 d => 53 :: digits_of_uint d
  | Decimal.D6 d => 54 :: digits_of_uint d
  | Decimal.D7 d => 55 :: digits_of_uint d
  | Decimal.D8 d => 56 :: digits_of_uint d
  | Decimal.D9 d => 57 :: digits_of_uint d
  end.

Definition str_of_int (n : N) : str := digits_of_uint (N.to_uint n).

Definition ascii_digit (c : char) : bool := (48 <=? c) && (c <=? 57).

(** [range(lo, hi)] *)
Definition range (lo hi : N) : list N :=
  List.map N.of_nat (seq (N.to_nat lo) (N.to_nat hi - N.to_nat lo)).

(** [os.path.join(a, b)] of posixpath. *)
Definition os_path_join (a b : str) : str :=
  if startswith b [SLASH] then b
  else if bool_decide (a = []) || endswith a [SLASH] then a ++ b
  else a ++ SLASH :: b.

(** What the script takes from the Python runtime. *)
Class Runtime := {
  (** [c.isalnum()] and [c.isspace()] for a one-character string *)
  isalnum : char -> bool;
  isspace : char -> bool;
  (** the value of a Unicode decimal digit: the characters [\d] matches
      and [int] reads *)
  digit_value : char -> option N;
  (** [sys.get_int_max_str_digits()]; [None] where conversions are unlimited *)
  int_max_str_digits : option nat;
}.

(** Exceptions the script can meet, and the result of a computation. *)
Inductive exn :=
| RequestException | AttributeError | KeyError | FileNotFoundError | ValueError.

Inductive outcome (A : Type) :=
| Ret (a : A)
| Raise (e : exn).
Arguments Ret {A} a.
Arguments Raise {A} e.

Section Strings.
Context {R : Runtime}.

Fixpoint lstrip (s : str) : str :=
  match s with
  | [] => []
  | c :: s' => if isspace c then lstrip s' else s
  end.

Fixpoint rstrip (s : str) : str :=
  match s with
  | [] => []
  | c :: s' =>
      match rstrip s' with
      | [] => if isspace c then [] else [c]
      | r => c :: r
      end
  end.

(** [s.strip()]: leading and trailing whitespace removed. *)
Definition strip (s : str) : str := rstrip (lstrip s).

(** [re.match(r"https://[^/]+", s)]: [group(0)] of the match, if any. *)
Fixpoint non_slash_prefix (s : str) : str :=
  match s with
  | [] => []
  | c :: s' => if c =? SLASH then [] else c :: non_slash_prefix s'
  end.

Definition re_match_origin (s : str) : option str :=
  if startswith s (lit "https://") then
    match non_slash_prefix (drop 8 s) with
    | [] => None
    | host => Some (lit "https://" ++ host)
    end
  else None.

Definition is_digit (c : char) : bool :=
  match digit_value c with Some _ => true | None => false end.

(** [\d+] followed by U+9875 at the start of [s], the longest run of
    digits first; the result is the run. *)
Fixpoint digits_then_ye (s : str) : option str :=
  match s with
  | [] => None
  | c :: s' =>
      if is_digit c then
        match digits_then_ye s' with
        | Some ds => Some (c :: ds)
        | None =>
            match s' with
            | y :: _ => if y =? YE then Some [c] else None
            | [] => None
            end
        end
      else None
  end.

(** [re.search] with the pattern of lines 29 and 32: [group(1)] of the
    leftmost match, if any. *)
Fixpoint re_search_total (s : str) : option str :=
  match s with
  | [] => None
  | c :: s' =>
      match (if c =? GONG then digits_then_ye s' else None) with
      | Some ds => Some ds
      | None => re_search_total s'
      end
  end.

(** [int(ds)] for a string of decimal digits. *)
Definition int_of_digits (ds : str) : outcome N :=
  if match int_max_str_digits with
     | Some limit => (limit <? length ds)%nat
     | None => false
     end
  then Raise ValueError
  else
    fold_left
      (fun acc c =>
         match acc, digit_value c with
         | Ret n, Some v => Ret (10 * n + v)
         | _, _ => Raise ValueError
         end)
      ds (Ret 0).

End Strings.

(** ** The BeautifulSoup tree

    A tag has a name, the tokens of its [class] attribute (BeautifulSoup
    keeps that attribute as a list), its other attributes and its children. *)

#[local] Set Warnings "-register-all".

Inductive node :=
| NavigableString (s : str)
| Tag (name : str) (classes : list str) (attrs : list (str * str))
      (contents : list node).

(** What [find] and [find_all] are asked for: a tag name, possibly a
    [class_], and attributes that must be present ([attr=True]). *)
Record strainer := Strainer {
  want_name : str;
  want_class : option str;
  want_attrs : list str;
}.

Fixpoint lookup_attr (attrs : list (str * str)) (key : str) : option str :=
  match attrs with
  | [] => None
  | (k, v) :: rest => if bool_decide (k = key) then Some v else lookup_attr rest key
  end.

(** [tag.get(key)] *)
Definition tag_get (n : node) (key : str) : option str :=
  match n with
  | NavigableString _ => None
  | Tag _ _ attrs _ => lookup_attr attrs key
  end.

(** [tag[key]] *)
Definition tag_getitem (n : node) (key : str) : outcome str :=
  match tag_get n key with
  | Some v => Ret v
  | None => Raise KeyError
  end.

Fixpoint join_space (l : list str) : str :=
  match l with
  | [] => []
  | [x] => x
  | x :: rest => x ++ SPACE :: join_space rest
  end.

(** A [class_] string matches one of the tokens, or all of them joined. *)
Definition class_matches (classes : list str) (want : str) : bool :=
  existsb (fun c => bool_decide (c = want)) classes
  || bool_decide (join_space classes = want).

Definition tag_matches (q : strainer) (n : node) : bool :=
  match n with
  | NavigableString _ => false
  | Tag name classes attrs _ =>
      bool_decide (name = want_name q)
      && match want_class q with
         | Some c => class_matches classes c
         | None => true
         end
      && forallb
           (fun k => match lookup_attr attrs k with Some _ => true | None => false end)
           (want_attrs q)
  end.

(** All nodes below [n], in document order. *)
Fixpoint descendants (n : node) : list node :=
  match n with
  | NavigableString _ => []
  | Tag _ _ _ contents =>
      (fix below (l : list node) : list node :=
         match l with
         | [] => []
         | c :: l' => c :: descendants c ++ below l'
         end) contents
  end.

Definition find_all (q : strainer) (n : node) : list node :=
  List.filter (tag_matches q) (descendants n).

Definition find (q : strainer) (n : node) : option node :=
  head (find_all q n).

(** [tag.string]: the text of a tag that holds one string, directly or
    through a chain of only children. *)
Fixpoint node_string (n : node) : option str :=
  match n with
  | NavigableString s => Some s
  | Tag _ _ _ [c] => node_string c
  | Tag _ _ _ _ => None
  end.

(** [tag.find(name, string=pattern)]: the first tag of that name whose
    [.string] the pattern is found in. *)
Definition string_matches (name : str) (p : str -> bool) (n : node) : bool :=
  match n with
  | NavigableString _ => false
  | Tag name' _ _ _ =>
      bool_decide (name' = name)
      && match node_string n with
         | Some s => p s
         | None => false
         end
  end.

Definition find_string (name : str) (p : str -> bool) (n : node) : option node :=
  head (List.filter (string_matches name p) (descendants n)).

(** ** The world: files, network, console *)

Abbreviation bytes := (list Byte.byte) (only parsing).

(** The answer to one GET.  [html] is the tree that
    [BeautifulSoup(response.text, "html.parser")] builds from the body and
    [chunks] is what [iter_content] yields; when [complete] is false the
    connection breaks after these chunks. *)
Record response := Response {
  status : N;
  html : node;
  chunks : list bytes;
  complete : bool;
}.

Inductive reply :=
| NoResponse                 (* connection error, timeout, retries exhausted *)
| Answer (r : response).

Inductive message :=
| Downloaded (save_path : str)
| AttemptFailed (attempt : N) (image_url : str)
| Skipping (image_url : str)
| FetchingAlbum (album_title : str)
| FailedAlbum
| TotalPagesAlbum (album_title : str) (total_pages : N)
| FetchingAlbumPage (album_title : str) (page : N)
| FailedAlbumPage (page : N)
| NoImages (page : N)
| ImageUrl (image_url : str)
| StartingDownloads (album_title : str) (page : N)
| AlbumDone (album_title : str)
| InputNotFound
| MissingUrlColumn
| FetchingCategory (base_url : str)
| FailedCategory
| TotalPagesCategory (total_pages : N)
| ProcessingPage (page : N)
| FailedPage (page : N)
| NoAlbums (page : N)
| AllDone.

Inductive event :=
| Get (url : str)
| Sleep (seconds : N)
| Makedirs (path : str)
| OpenWrite (path : str)
| Print (m : message).

(** [input_csv] is what [csv.reader] yields for [input.csv] ([None]: no
    such file); [pending] is what the network will answer to the coming
    requests, in order, and nothing once it is used up; [trace] lists the
    events so far, oldest first. *)
Record world := World {
  input_csv : option (list (list str));
  dirs : gset str;
  files : gmap str bytes;
  pending : list reply;
  trace : list event;
}.

Definition M (A : Type) : Type := world -> outcome A * world.

Definition ret {A} (a : A) : M A := fun w => (Ret a, w).
Definition raise {A} (e : exn) : M A := fun w => (Raise e, w).
Definition bind {A B} (m : M A) (k : A -> M B) : M B :=
  fun w =>
    match m w with
    | (Ret a, w') => k a w'
    | (Raise e, w') => (Raise e, w')
    end.

Declare Scope py_scope.
Delimit Scope py_scope with py.
Notation "x <- m ;; k" := (bind m (fun x => k))
  (at level 100, m at next level, right associativity) : py_scope.
Notation "m ;; k" := (bind m (fun _ => k))
  (at level 100, right associativity) : py_scope.
Local Open Scope py_scope.

Definition lift {A} (o : outcome A) : M A := fun w => (o, w).

(** [try: m  except <caught>: handler] *)
Definition try_except {A} (m : M A) (caught : exn -> bool) (handler : exn -> M A) : M A :=
  fun w =>
    match m w with
    | (Ret a, w') => (Ret a, w')
    | (Raise e, w') => if caught e then handler e w' else (Raise e, w')
    end.

(** [for x in xs: body]; an exception leaves the loop. *)
Fixpoint for_each {A} (xs : list A) (body : A -> M unit) : M unit :=
  match xs with
  | [] => ret tt
  | x :: rest => body x ;; for_each rest body
  end.

Definition emit (e : event) : M unit :=
  fun w =>
    (Ret tt,
     {| input_csv := input_csv w; dirs := dirs w; files := files w;
        pending := pending w; trace := trace w ++ [e] |}).

Definition print (m : message) : M unit := emit (Print m).

(** [time.sleep(seconds)] *)
Definition sleep (seconds : N) : M unit := emit (Sleep seconds).

Definition is_request_exception (e : exn) : bool :=
  match e with RequestException => true | _ => false end.

(** [session.get(url, stream=...)].  The next pending reply is consumed.
    Without [stream] the body is read before [get] returns, so a broken
    body already fails here.  A URL without a scheme, which [requests]
    refuses with a [RequestException] before anything is sent, is not
    told apart from one that is sent: what is stated of an answered
    request is meant for a URL with a scheme ([has_scheme] below). *)
Definition session_get (url : str) (stream : bool) : M response :=
  fun w =>
    let w' :=
      {| input_csv := input_csv w; dirs := dirs w; files := files w;
         pending := tail (pending w); trace := trace w ++ [Get url] |} in
    match pending w with
    | Answer r :: _ =>
        if stream || complete r then (Ret r, w') else (Raise RequestException, w')
    | _ => (Raise RequestException, w')
    end.

(** [response.raise_for_status()] *)
Definition raise_for_status (r : response) : M unit :=
  if (400 <=? status r) && (status r <? 600) then raise RequestException
  else ret tt.

(** The directories [os.makedirs(path)] makes sure of: [path] and every
    prefix of it that ends before a separator. *)
Fixpoint prefixes_at_slash (seen todo : str) : list str :=
  match todo with
  | [] => [seen]
  | c :: todo' =>
      (if c =? SLASH then [seen] else []) ++ prefixes_at_slash (seen ++ [c]) todo'
  end.

Definition ancestors (path : str) : list str :=
  List.filter (fun p => negb (bool_decide (p = []))) (prefixes_at_slash [] path).

(** [os.makedirs(path, exist_ok=True)], when it succeeds: the directories
    are added to those that exist, and what exists is left as it is.  An
    [OSError] of the call (a name too long, a file where a directory is to
    be made, permissions) is outside the model; the script calls it outside
    any [try], so such an error would end the run. *)
Definition makedirs (path : str) : M unit :=
  fun w =>
    (Ret tt,
     {| input_csv := input_csv w;
        dirs := dirs w ∪ list_to_set (ancestors path);
        files := files w; pending := pending w;
        trace := trace w ++ [Makedirs path] |}).

(** [open(path, "wb")], when it succeeds: the file is created, or emptied
    if it exists.  An [OSError] of the call is outside the model, also the
    [FileNotFoundError] for a folder that does not exist, so [dirs] is not
    looked at: line 52 does not catch it, and what is stated of a file
    that is written is meant for a path whose folder exists
    ([folder_made] below). *)
Definition open_wb (path : str) : M unit :=
  fun w =>
    (Ret tt,
     {| input_csv := input_csv w; dirs := dirs w;
        files := <[path := []]> (files w);
        pending := pending w; trace := trace w ++ [OpenWrite path] |}).

(** [file.write(chunk)] on the file opened at [path]. *)
Definition file_write (path : str) (chunk : bytes) : M unit :=
  fun w =>
    (Ret tt,
     {| input_csv := input_csv w; dirs := dirs w;
        files := alter (fun content => content ++ chunk) path (files w);
        pending := pending w; trace := trace w |}).

(** [open("input.csv", "r")] followed by [csv.reader].  The world says
    what the file is read as; of the failures only the missing file is
    modelled.  A file that cannot be read or decoded raises in the script
    an exception that lines 116-121 do not catch; no world stands for
    such a file. *)
Definition open_input : M (list (list str)) :=
  fun w =>
    match input_csv w with
    | Some rows => (Ret rows, w)
    | None => (Raise FileNotFoundError, w)
    end.

(** [csv.DictReader]: the first row names the fields, empty rows are
    skipped, a short row is completed with [None].  (What a long row has
    beyond the fields goes under the key [None], which is no string and
    is left out here.) *)
Definition row_dict (fieldnames row : list str) : gmap str (option str) :=
  fold_left (fun d key => <[key := None]> d)
    (drop (length row) fieldnames)
    (fold_left (fun d kv => <[fst kv := Some (snd kv)]> d)
       (combine fieldnames row) ∅).

Definition DictReader (rows : list (list str)) : list (gmap str (option str)) :=
  match rows with
  | [] => []
  | fieldnames :: data =>
      List.map (row_dict fieldnames)
        (List.filter (fun row => negb (bool_decide (row = []))) data)
  end.

(** [key in d] and [d[key]] *)
Definition dict_contains {V} (d : gmap str V) (key : str) : bool :=
  match d !! key with Some _ => true | None => false end.

Definition dict_getitem {V} (d : gmap str V) (key : str) : outcome V :=
  match d !! key with Some v => Ret v | None => Raise KeyError end.

(** [executor.map(f, items)] inside [with ThreadPoolExecutor(...)]: every
    item is run to its end before the block is left.  What a call raises
    stays in its future, which the script never reads.  The calls are
    taken one after the other, in the order of [items]: this is one of
    the schedules of the pool of eight workers, so what is stated of the
    order of events within a batch, or of which of two images written to
    one path is the last, holds of this schedule only. *)
Definition in_future {A} (m : M A) : M unit :=
  fun w => (Ret tt, snd (m w)).

Definition executor_map {A} (f : A -> M unit) (items : list A) : M unit :=
  for_each items (fun item => in_future (f item)).

(** ** The script *)

(** Lines 62-67, 75-80, 132-137 and 150-155: a GET whose failure is
    reported and gives [None], on which the caller returns or continues. *)
Definition try_get (url : str) (failure : message) : M (option response) :=
  try_except
    (response <- session_get url false ;;
     raise_for_status response ;;
     ret (Some response))
    is_request_exception
    (fun _ => print failure ;; ret None).

Section Script.
Context {R : Runtime}.

(** Line 13, the generator expression: one character. *)
Definition sanitize_char (c : char) : char :=
  if isalnum c || ((c =? SPACE) || (c =? UNDERSCORE)) then c else UNDERSCORE.

(** Lines 11-13. *)
Definition sanitize_folder_name (name : str) : str :=
  strip (List.map sanitize_char name).

(** Lines 15-22. *)
Definition get_category_title (soup : node) : outcome str :=
  match find (Strainer (lit "div")
                (Some (lit "yupoo-crumbs categories__box-right-header")) []) soup with
  | Some crumbs =>
      match find (Strainer (lit "a") (Some (lit "yupoo-crumbs-span"))
                    [lit "title"]) crumbs with
      | Some category_title_tag =>
          match tag_getitem category_title_tag (lit "title") with
          | Ret title => Ret (strip title)
          | Raise e => Raise e
          end
      | None => Ret (lit "Unknown_Category")
      end
  | None => Ret (lit "Unknown_Category")
  end.

Definition found (o : option str) : bool :=
  match o with Some _ => true | None => false end.

(** Lines 24-36. *)
Definition get_total_pages (soup : node) : outcome N :=
  match find (Strainer (lit "form") (Some (lit "pagination__jumpwrap")) []) soup with
  | Some pagination_form =>
      match find_string (lit "span") (fun s => found (re_search_total s))
              pagination_form with
      | Some total_pages_text =>
          match node_string total_pages_text with
          | Some text =>
              match re_search_total (strip text) with
              | Some digits => int_of_digits digits
              | None => Ret 1
              end
          | None => Raise AttributeError
          end
      | None => Ret 1
      end
  | None => Ret 1
  end.

(** Lines 45-51: one attempt. *)
Definition download_attempt (image_url save_path : str) : M unit :=
  img_response <- session_get image_url true ;;
  raise_for_status img_response ;;
  open_wb save_path ;;
  for_each (chunks img_response) (file_write save_path) ;;
  (if complete img_response then ret tt else raise RequestException) ;;
  print (Downloaded save_path).

(** Lines 44-54: one round of the loop; [true] stands for the [return]
    of line 51. *)
Definition attempt_round (image_url save_path : str) (attempt : N) : M bool :=
  try_except
    (download_attempt image_url save_path ;; ret true)
    is_request_exception
    (fun _ =>
       print (AttemptFailed (attempt + 1) image_url) ;;
       sleep 2 ;;
       ret false).

(** Lines 43-55: the loop over [range(retries)]. *)
Fixpoint download_attempts (image_url save_path : str) (attempts : list N) : M unit :=
  match attempts with
  | [] => print (Skipping image_url)
  | attempt :: rest =>
      returned <- attempt_round image_url save_path attempt ;;
      if returned then ret tt
      else download_attempts image_url save_path rest
  end.

(** Lines 38-55.  The session is the one of the world. *)
Definition download_image (image_detail : str * str) : M unit :=
  let '(image_url, save_path) := image_detail in
  let retries := 3 in
  download_attempts image_url save_path (range 0 retries).

(** Lines 100-102: where the image of a card titled [image_name] on page
    [page] is saved. *)
Definition destination_path (album_folder : str) (page : N) (image_name : str) : str :=
  let image_name :=
    sanitize_folder_name (str_of_int page ++ lit "_" ++ image_name) in
  let image_name := image_name ++ lit ".jpg" in
  os_path_join album_folder image_name.

(** Lines 90-102: one image card. *)
Definition image_card (album_folder : str) (page : N) (card : node)
    (image_details : list (str * str)) : M (list (str * str)) :=
  let img_tag := find (Strainer (lit "img") None [lit "data-origin-src"]) card in
  let title_tag := find (Strainer (lit "h3") None [lit "title"]) card in
  match img_tag, title_tag with
  | Some img_tag, Some title_tag =>
      image_url <- lift (tag_getitem img_tag (lit "data-origin-src")) ;;
      image_name <- lift (tag_getitem title_tag (lit "title")) ;;
      image_url <-
        (if startswith image_url (lit "//")
         then print (ImageUrl (lit "https:" ++ image_url)) ;;
              ret (lit "https:" ++ image_url)
         else ret image_url) ;;
      ret (image_details ++ [(image_url, destination_path album_folder page image_name)])
  | _, _ => ret image_details
  end.

(** Lines 88-102: the loop over the cards of a page. *)
Fixpoint image_cards_loop (album_folder : str) (page : N) (image_cards : list node)
    (image_details : list (str * str)) : M (list (str * str)) :=
  match image_cards with
  | [] => ret image_details
  | card :: rest =>
      image_details <- image_card album_folder page card image_details ;;
      image_cards_loop album_folder page rest image_details
  end.

(** Lines 74-106: one page of an album. *)
Definition album_page (link album_title album_folder : str) (page : N) : M unit :=
  print (FetchingAlbumPage album_title page) ;;
  fetched <- try_get (link ++ lit "&page=" ++ str_of_int page) (FailedAlbumPage page) ;;
  match fetched with
  | None => ret tt
  | Some response =>
      let image_cards :=
        find_all (Strainer (lit "div")
                    (Some (lit "showalbum__children image__main")) [])
          (html response) in
      match image_cards with
      | [] => print (NoImages page)
      | _ =>
          image_details <- image_cards_loop album_folder page image_cards [] ;;
          print (StartingDownloads album_title page) ;;
          executor_map download_image image_details
      end
  end.

(** Lines 57-108. *)
Definition download_images_from_album (link album_title base_folder : str) : M unit :=
  let album_folder := os_path_join base_folder (sanitize_folder_name album_title) in
  makedirs album_folder ;;
  print (FetchingAlbum album_title) ;;
  fetched <- try_get link FailedAlbum ;;
  match fetched with
  | None => ret tt
  | Some response =>
      total_pages <- lift (get_total_pages (html response)) ;;
      print (TotalPagesAlbum album_title total_pages) ;;
      for_each (range 1 (total_pages + 1))
        (album_page link album_title album_folder) ;;
      print (AlbumDone album_title)
  end.

(** Line 115: the list comprehension over the rows. *)
Fixpoint url_column (rows : list (gmap str (option str))) : outcome (list (option str)) :=
  match rows with
  | [] => Ret []
  | row :: rest =>
      if dict_contains row (lit "URL") then
        match dict_getitem row (lit "URL"), url_column rest with
        | Ret url, Ret links => Ret (url :: links)
        | Raise e, _ => Raise e
        | _, Raise e => Raise e
        end
      else url_column rest
  end.

(** Lines 112-121; [None] stands for the [return] of a handler. *)
Definition load_links : M (option (list (option str))) :=
  try_except
    (rows <- open_input ;;
     links <- lift (url_column (DictReader rows)) ;;
     ret (Some links))
    (fun e => match e with FileNotFoundError | KeyError => true | _ => false end)
    (fun e =>
       match e with
       | FileNotFoundError => print InputNotFound
       | _ => print MissingUrlColumn
       end ;;
       ret None).

(** Lines 163-169: one album card of a category page. *)
Definition album_card (base_domain base_folder : str) (album : node) : M unit :=
  let album_title :=
    strip (match tag_get album (lit "title") with
           | Some title => title
           | None => lit "Untitled"
           end) in
  album_link <- lift (tag_getitem album (lit "href")) ;;
  let album_link :=
    if startswith album_link (lit "/") then base_domain ++ album_link
    else album_link in
  download_images_from_album album_link album_title base_folder.

(** Lines 148-169: one page of a category. *)
Definition category_page (base_url base_domain base_folder : str) (page : N) : M unit :=
  print (ProcessingPage page) ;;
  let page_url := base_url ++ lit "?page=" ++ str_of_int page in
  fetched <- try_get page_url (FailedPage page) ;;
  match fetched with
  | None => ret tt
  | Some page_response =>
      let albums := find_all (Strainer (lit "a") (Some (lit "album__main")) [])
                      (html page_response) in
      match albums with
      | [] => print (NoAlbums page)
      | _ => for_each albums (album_card base_domain base_folder)
      end
  end.

(** Lines 128-169: one seed.  A short row gives [None] for its URL. *)
Definition category (base_url : option str) : M unit :=
  base_url <-
    match base_url with
    | Some s => ret (strip s)
    | None => raise AttributeError
    end ;;
  base_domain <-
    match re_match_origin base_url with
    | Some origin => ret origin
    | None => raise AttributeError
    end ;;
  print (FetchingCategory base_url) ;;
  fetched <- try_get base_url FailedCategory ;;
  match fetched with
  | None => ret tt
  | Some response =>
      let soup := html response in
      total_pages <- lift (get_total_pages soup) ;;
      print (TotalPagesCategory total_pages) ;;
      category_title <- lift (get_category_title soup) ;;
      let base_folder :=
        os_path_join (lit "Images") (sanitize_folder_name category_title) in
      makedirs base_folder ;;
      for_each (range 1 (total_pages + 1))
        (category_page base_url base_domain base_folder)
  end.

(** Lines 110-171. *)
Definition download_images_from_yupoo_main : M unit :=
  loaded <- load_links ;;
  match loaded with
  | None => ret tt
  | Some links =>
      for_each links category ;;
      print AllDone
  end.

End Script.

(** ** A runtime for ASCII text

    Below 128 the character classes are fixed by ASCII and every Python
    version agrees on them.  This instance is only used to run the script
    on concrete inputs made of ASCII characters. *)

Definition ascii_runtime : Runtime := {|
  isalnum c :=
    ascii_digit c || ((65 <=? c) && (c <=? 90)) || ((97 <=? c) && (c <=? 122));
  isspace c := ((9 <=? c) && (c <=? 13)) || ((28 <=? c) && (c <=? 32));
  digit_value c := if ascii_digit c then Some (c - 48) else None;
  int_max_str_digits := Some 4300%nat;
|}.

(** ** Sample inputs *)

(** An image card as the album pages have them. *)
Definition sample_card (src title : str) : node :=
  Tag (lit "div") [lit "showalbum__children"; lit "image__main"] []
    [Tag (lit "img") [] [(lit "data-origin-src", src)] [];
     Tag (lit "h3") [] [(lit "title", title)] []].

(** An album page with two cards of the same title and no pagination. *)
Definition sample_album_page : node :=
  Tag (lit "html") [] []
    [sample_card (lit "//photo.example.com/1.jpg") (lit "A");
     sample_card (lit "//photo.example.com/2.jpg") (lit "A")].

(** A page whose pagination form shows no page count. *)
Definition sample_unnumbered_page : node :=
  Tag (lit "html") [] []
    [Tag (lit "form") [lit "pagination__jumpwrap"] []
       [Tag (lit "span") [] [] [NavigableString (lit "page 1")]]].

(** A page whose pagination form shows a count of 12 pages. *)
Definition sample_numbered_page : node :=
  Tag (lit "html") [] []
    [Tag (lit "form") [lit "pagination__jumpwrap"] []
       [Tag (lit "span") [] [] [NavigableString (GONG :: lit "12" ++ [YE])]]].

(** A world with no input table, no file and an empty trace, where the
    network gives [replies]. *)
Definition world_of_replies (replies : list reply) : world :=
  {| input_csv := None; dirs := ∅; files := ∅; pending := replies; trace := [] |}.

(** A world with the input table [table] and a network that is down. *)
Definition world_of_table (table : list (list str)) : world :=
  {| input_csv := Some table; dirs := ∅; files := ∅; pending := []; trace := [] |}.

Definition page_reply (soup : node) : reply :=
  Answer {| status := 200; html := soup; chunks := []; complete := true |}.

Definition image_reply (body : list bytes) (whole : bool) : reply :=
  Answer {| status := 200; html := NavigableString []; chunks := body; complete := whole |}.

(** ** Vocabulary of the statements *)

(** The reply to the [i]-th coming request. *)
Definition reply_at (w : world) (i : nat) : reply := nth i (pending w) NoResponse.

Definition error_status (r : response) : bool :=
  (400 <=? status r) && (status r <? 600).

(** A request that fails before anything is written: no response, or an
    error status. *)
Definition refused (r : reply) : bool :=
  match r with
  | NoResponse => true
  | Answer r => error_status r
  end.

(** A download attempt fails when its request is refused or its body
    breaks off. *)
Definition failing (r : reply) : bool :=
  match r with
  | NoResponse => true
  | Answer r => error_status r || negb (complete r)
  end.

(** The requests and the pauses among some events. *)
Definition timing (t : list event) : list event :=
  List.filter (fun e => match e with Get _ | Sleep _ => true | _ => false end) t.

(** [text] contains U+5171, one or more decimal digits, U+9875. *)
Definition has_total_marker {R : Runtime} (text : str) : Prop :=
  exists before ds after,
    text = before ++ GONG :: ds ++ YE :: after
    /\ ds <> [] /\ Forall (fun c => is_digit c = true) ds.

(** [p] lies below the directory [d]. *)
Definition under (d p : str) : bool := startswith p (d ++ [SLASH]).

(** Nothing, file or directory, lies below [d]. *)
Definition empty_dir (w : world) (d : str) : Prop :=
  (forall p, is_Some (files w !! p) -> under d p = false)
  /\ (forall p, p ∈ dirs w -> under d p = false).

(** The characters a sanitized name is made of. *)
Definition allowed {R : Runtime} (c : char) : Prop :=
  isalnum c = true \/ c = SPACE \/ c = UNDERSCORE.

(** What a run never undoes: the trace only grows and directories are
    never removed. *)
Definition steady (w w' : world) : Prop :=
  (exists t, trace w' = trace w ++ t) /\ dirs w ⊆ dirs w'.

Definition progressive {A} (m : M A) : Prop := forall w, steady w (snd (m w)).

(** ** Further vocabulary and samples *)

(** From [w] to [w'] no file other than the one at [path] has changed,
    no directory has been made and the input table is the same. *)
Definition frame (path : str) (w w' : world) : Prop :=
  (forall q, q <> path -> files w' !! q = files w !! q)
  /\ dirs w' = dirs w /\ input_csv w' = input_csv w.

Definition framed {A} (path : str) (m : M A) : Prop :=
  forall w, frame path w (snd (m w)).

(** A computation that raises nothing, whatever the world. *)
Definition returns {A} (m : M A) : Prop :=
  forall w, exists a w', m w = (Ret a, w').

(** [w] with the events [t] added to its trace. *)
Definition logged (w : world) (t : list event) : world :=
  {| input_csv := input_csv w; dirs := dirs w; files := files w;
     pending := pending w; trace := trace w ++ t |}.

(** What a run shows of a seed that could not be fetched. *)
Definition failed_seed {R : Runtime} (url : str) : list event :=
  [Print (FetchingCategory (strip url)); Get (strip url); Print FailedCategory].

(** A category page with its breadcrumb and one album. *)
Definition sample_category_page : node :=
  Tag (lit "html") [] []
    [Tag (lit "div") [lit "yupoo-crumbs"; lit "categories__box-right-header"] []
       [Tag (lit "a") [lit "yupoo-crumbs-span"] [(lit "title", lit " Bags & Shoes ")] []];
     Tag (lit "a") [lit "album__main"]
       [(lit "title", lit "Spring/Summer"); (lit "href", lit "/albums/1?uid=1")] []].

(** A category page whose album has no link. *)
Definition sample_broken_category_page : node :=
  Tag (lit "html") [] []
    [Tag (lit "a") [lit "album__main"] [(lit "title", lit "Spring/Summer")] []].

(** ** Vocabulary for files in place and for visits of pages *)

(** A world in which [folder] has been made, with no file yet, where the
    network gives [replies]. *)
Definition world_in_folder (folder : str) (replies : list reply) : world :=
  {| input_csv := None; dirs := list_to_set (ancestors folder); files := ∅;
     pending := replies; trace := [] |}.

(** The same with one file, [name], already in the folder. *)
Definition world_with_file (folder name : str) (content : bytes)
    (replies : list reply) : world :=
  {| input_csv := None; dirs := list_to_set (ancestors folder);
     files := {[ folder ++ SLASH :: name := content ]};
     pending := replies; trace := [] |}.

(** [path] names a file directly inside a directory that exists, and is
    not itself a directory: what [open(path, "wb")] needs of the tree of
    directories. *)
Definition folder_made (w : world) (path : str) : Prop :=
  exists folder name,
    path = folder ++ SLASH :: name
    /\ name <> [] /\ ~ In SLASH name
    /\ folder ∈ dirs w /\ path ∉ dirs w.

(** The URL says how it is to be fetched. *)
Definition has_scheme (url : str) : bool :=
  startswith url (lit "http://") || startswith url (lit "https://").

(** Whatever the world, the computation adds to the trace only events
    that [f] does not single out. *)
Definition silent (f : event -> bool) {A} (m : M A) : Prop :=
  forall w, exists t,
    trace (snd (m w)) = trace w ++ t /\ Forall (fun e => f e = false) t.

Definition starts_album_page (e : event) : bool :=
  match e with Print (FetchingAlbumPage _ _) => true | _ => false end.

Definition starts_category_page (e : event) : bool :=
  match e with Print (ProcessingPage _) => true | _ => false end.

(** The events of one page of an album: it is announced, requested, and
    [snd v] is what follows until the next page. *)
Definition album_page_visit (link album_title : str) (v : N * list event) : list event :=
  Print (FetchingAlbumPage album_title (fst v))
  :: Get (link ++ lit "&page=" ++ str_of_int (fst v))
  :: snd v.

Definition category_page_visit (base_url : str) (v : N * list event) : list event :=
  Print (ProcessingPage (fst v))
  :: Get (base_url ++ lit "?page=" ++ str_of_int (fst v))
  :: snd v.

(** * Part II: properties *)

(** ** Stripping *)

Section StringFacts.
Context {R : Runtime}.

Lemma lstrip_incl s c : In c (lstrip s) -> In c s.
Proof.
  induction s as [|x s IH]; simpl; [tauto|].
  destruct (isspace x); simpl; tauto.
Qed.

Lemma rstrip_cons c s :
  rstrip (c :: s) =
    match rstrip s with
    | [] => if isspace c then [] else [c]
    | r => c :: r
    end.
Proof. reflexivity. Qed.

Lemma rstrip_incl s c : In c (rstrip s) -> In c s.
Proof.
  revert c. induction s as [|x s IH]; intros c; [simpl; tauto|].
  rewrite rstrip_cons. destruct (rstrip s) as [|y r] eqn:E.
  - destruct (isspace x); simpl; tauto.
  - intros [->|H]; [now left|right; now apply IH].
Qed.

Lemma strip_incl s c : In c (strip s) -> In c s.
Proof. intros H. now apply lstrip_incl, rstrip_incl. Qed.

Lemma lstrip_head s c r : lstrip s = c :: r -> isspace c = false.
Proof.
  induction s as [|x s IH]; simpl; [discriminate|].
  destruct (isspace x) eqn:E; [exact IH|].
  intros [= <- _]. exact E.
Qed.

Lemma lstrip_fixed c s : isspace c = false -> lstrip (c :: s) = c :: s.
Proof. intros H. simpl. now rewrite H. Qed.

Lemma rstrip_head c s : isspace c = false -> exists r, rstrip (c :: s) = c :: r.
Proof.
  intros H. rewrite rstrip_cons, H. destruct (rstrip s); eauto.
Qed.

Lemma rstrip_last s i c : rstrip s = i ++ [c] -> isspace c = false.
Proof.
  revert i. induction s as [|x s IH]; intros i.
  - simpl. now destruct i.
  - rewrite rstrip_cons. destruct (rstrip s) as [|y r] eqn:E.
    + destruct (isspace x) eqn:Ex.
      * now destruct i.
      * destruct i as [|z [|? ?]]; simpl; intros [= ]; congruence.
    + destruct i as [|z i]; simpl.
      * intros [= ].
      * intros [= -> Hr]. now apply (IH i).
Qed.

Lemma rstrip_idem s : rstrip (rstrip s) = rstrip s.
Proof.
  induction s as [|x s IH]; [reflexivity|].
  rewrite rstrip_cons. destruct (rstrip s) as [|y r] eqn:E.
  - destruct (isspace x) eqn:Ex; [reflexivity|].
    simpl. now rewrite Ex.
  - rewrite rstrip_cons, IH. reflexivity.
Qed.

Lemma strip_head s c r : strip s = c :: r -> isspace c = false.
Proof.
  unfold strip. destruct (lstrip s) as [|x t] eqn:E; [discriminate|].
  pose proof (lstrip_head _ _ _ E) as Hx.
  destruct (rstrip_head x t Hx) as [r' ->]. now intros [= <- _].
Qed.

Lemma strip_last s i c : strip s = i ++ [c] -> isspace c = false.
Proof. apply rstrip_last. Qed.

Lemma lstrip_strip s : lstrip (strip s) = strip s.
Proof.
  destruct (strip s) as [|c r] eqn:E; [reflexivity|].
  apply lstrip_fixed. exact (strip_head _ _ _ E).
Qed.

Lemma strip_idem s : strip (strip s) = strip s.
Proof.
  unfold strip at 1. rewrite lstrip_strip. apply rstrip_idem.
Qed.

(** ** Sanitizing *)

Lemma sanitize_char_allowed c : allowed (sanitize_char c).
Proof.
  unfold sanitize_char, allowed.
  destruct (isalnum c) eqn:Ea; simpl; [now left|].
  destruct (N.eqb_spec c SPACE); simpl; [now right; left|].
  destruct (N.eqb_spec c UNDERSCORE); simpl; right; right; auto.
Qed.

Lemma sanitize_char_fixed c : allowed c -> sanitize_char c = c.
Proof.
  unfold sanitize_char, allowed. intros [H|[->| ->]].
  - now rewrite H.
  - now rewrite orb_true_r.
  - now rewrite orb_true_r.
Qed.

Lemma sanitize_allowed name c : In c (sanitize_folder_name name) -> allowed c.
Proof.
  intros H. apply strip_incl, in_map_iff in H.
  destruct H as [x [<- _]]. apply sanitize_char_allowed.
Qed.

Lemma map_sanitize_fixed s :
  (forall c, In c s -> allowed c) -> List.map sanitize_char s = s.
Proof.
  induction s as [|x s IH]; intros H; [reflexivity|]. simpl.
  rewrite sanitize_char_fixed by (apply H; now left).
  rewrite IH; [reflexivity|]. intros c Hc. apply H. now right.
Qed.

(** C5. Sanitizing is idempotent: sanitizing a sanitized name gives the
    same name again, for every input string. *)
Theorem sanitize_idempotent (x : str) :
  sanitize_folder_name (sanitize_folder_name x) = sanitize_folder_name x.
Proof.
  unfold sanitize_folder_name at 1.
  rewrite map_sanitize_fixed by apply sanitize_allowed.
  unfold sanitize_folder_name. apply strip_idem.
Qed.

(** C8, as amended. For every input, the sanitized name consists of
    alphanumeric characters, spaces and underscores only, and neither
    begins nor ends with whitespace.  A folder component is such a name;
    the file component of an image is such a name, made from the page
    number, an underscore and the title, followed by ".jpg". *)
Theorem sanitize_output_charset (name : str) :
  (forall c, In c (sanitize_folder_name name) ->
     isalnum c = true \/ c = SPACE \/ c = UNDERSCORE)
  /\ (forall c rest, sanitize_folder_name name = c :: rest -> isspace c = false)
  /\ (forall init c, sanitize_folder_name name = init ++ [c] -> isspace c = false)
  /\ (forall album_folder page,
        exists stem,
          destination_path album_folder page name
          = os_path_join album_folder (stem ++ lit ".jpg")
          /\ stem = sanitize_folder_name (str_of_int page ++ lit "_" ++ name)
          /\ (forall c, In c stem -> isalnum c = true \/ c = SPACE \/ c = UNDERSCORE)
          /\ (forall c rest, stem = c :: rest -> isspace c = false)
          /\ (forall init c, stem = init ++ [c] -> isspace c = false)).
Proof.
  split; [|split; [|split]].
  - intros c Hc. exact (sanitize_allowed name c Hc).
  - intros c rest. apply strip_head.
  - intros init c. apply strip_last.
  - intros album_folder page. eexists. split; [reflexivity|].
    split; [reflexivity|]. split; [|split].
    + intros c Hc. exact (sanitize_allowed _ c Hc).
    + intros c rest. apply strip_head.
    + intros init c. apply strip_last.
Qed.

End StringFacts.

(** ** Searching the tree *)

Lemma head_filter_none {A} (p : A -> bool) (l : list A) :
  head (List.filter p l) = None <-> (forall x, In x l -> p x = false).
Proof.
  induction l as [|a l IH]; simpl.
  - split; [intros _ x []|reflexivity].
  - destruct (p a) eqn:E; simpl.
    + split; [discriminate|]. intros H. rewrite (H a) in E; [discriminate|now left].
    + rewrite IH. split.
      * intros H x [<-|Hx]; auto.
      * intros H x Hx. apply H. now right.
Qed.

Lemma head_filter_some {A} (p : A -> bool) (l : list A) (x : A) :
  head (List.filter p l) = Some x -> In x l /\ p x = true.
Proof.
  induction l as [|a l IH]; simpl; [discriminate|].
  destruct (p a) eqn:E; simpl.
  - intros [= <-]. split; [now left|exact E].
  - intros H. destruct (IH H). split; [now right|assumption].
Qed.

Lemma find_none q n :
  find q n = None <-> (forall m, In m (descendants n) -> tag_matches q m = false).
Proof. apply head_filter_none. Qed.

Lemma find_some q n m :
  find q n = Some m -> In m (descendants n) /\ tag_matches q m = true.
Proof. apply head_filter_some. Qed.

Lemma tag_matches_attr q n key :
  tag_matches q n = true -> In key (want_attrs q) -> exists v, tag_get n key = Some v.
Proof.
  destruct n as [s|name classes attrs contents]; simpl; [discriminate|].
  intros H Hk. apply andb_true_iff in H as [_ H].
  rewrite forallb_forall in H. specialize (H key Hk).
  destruct (lookup_attr attrs key) as [v|]; [eauto|discriminate].
Qed.

Section PageFacts.
Context {R : Runtime}.

Lemma digits_then_ye_sound s ds :
  digits_then_ye s = Some ds ->
  exists after, s = ds ++ YE :: after
    /\ ds <> [] /\ Forall (fun c => is_digit c = true) ds.
Proof.
  revert ds. induction s as [|c s IH]; intros ds; simpl; [discriminate|].
  destruct (is_digit c) eqn:Ec; [|discriminate].
  destruct (digits_then_ye s) as [ds'|] eqn:E.
  - intros [= <-]. destruct (IH ds' eq_refl) as (after & -> & Hne & Hall).
    exists after. repeat split; [discriminate|]. now constructor.
  - destruct s as [|y s']; [discriminate|].
    destruct (N.eqb_spec y YE) as [->|]; [|discriminate].
    intros [= <-]. exists s'. repeat split; [discriminate|].
    constructor; [assumption|constructor].
Qed.

Lemma re_search_total_sound s ds :
  re_search_total s = Some ds -> has_total_marker s.
Proof.
  induction s as [|c s IH]; simpl; [discriminate|].
  destruct (N.eqb_spec c GONG) as [->|].
  - destruct (digits_then_ye s) as [ds'|] eqn:E.
    + intros _. destruct (digits_then_ye_sound _ _ E) as (after & -> & Hne & Hall).
      exists [], ds', after. auto.
    + intros H. destruct (IH H) as (before & ds' & after & -> & Hne & Hall).
      exists (GONG :: before), ds', after. auto.
  - intros H. destruct (IH H) as (before & ds' & after & -> & Hne & Hall).
    exists (c :: before), ds', after. auto.
Qed.

Lemma re_search_total_none s :
  ~ has_total_marker s -> re_search_total s = None.
Proof.
  intros H. destruct (re_search_total s) eqn:E; [|reflexivity].
  destruct H. eapply re_search_total_sound; eassumption.
Qed.

Lemma digits_then_ye_complete ds after :
  ds <> [] -> Forall (fun c => is_digit c = true) ds ->
  digits_then_ye (ds ++ YE :: after) <> None.
Proof.
  intros Hne Hall. induction Hall as [|c ds Hc Hall IH]; [contradiction|].
  simpl. rewrite Hc. destruct ds as [|d ds].
  - cbn [app]. destruct (digits_then_ye (YE :: after)); [discriminate|].
    rewrite N.eqb_refl. discriminate.
  - destruct (digits_then_ye ((d :: ds) ++ YE :: after)) eqn:E; [discriminate|].
    exfalso. now apply IH.
Qed.

(** The search finds a marker exactly when the text holds one. *)
Lemma re_search_total_complete s :
  has_total_marker s -> re_search_total s <> None.
Proof.
  intros (before & ds & after & -> & Hne & Hall).
  induction before as [|c before IH]; simpl.
  - pose proof (digits_then_ye_complete ds after Hne Hall) as H.
    destruct (digits_then_ye (ds ++ YE :: after)); [discriminate|contradiction].
  - destruct (if c =? GONG then digits_then_ye (before ++ GONG :: ds ++ YE :: after)
              else None); [discriminate|exact IH].
Qed.

(** C6. When the document has no pagination form, or its first pagination
    form has no span whose text contains the "N pages total" marker, the
    page count is exactly 1 and nothing is raised. *)
Theorem get_total_pages_default (soup : node) :
  (forall n, In n (descendants soup) ->
     tag_matches (Strainer (lit "form") (Some (lit "pagination__jumpwrap")) []) n = false)
  \/ (exists form,
        find (Strainer (lit "form") (Some (lit "pagination__jumpwrap")) []) soup = Some form
        /\ forall classes attrs contents text,
             In (Tag (lit "span") classes attrs contents) (descendants form) ->
             node_string (Tag (lit "span") classes attrs contents) = Some text ->
             ~ has_total_marker text) ->
  get_total_pages soup = Ret 1.
Proof.
  intros [Habsent|(form & Hform & Hspans)]; unfold get_total_pages.
  - apply find_none in Habsent. now rewrite Habsent.
  - rewrite Hform.
    assert (find_string (lit "span") (fun s => found (re_search_total s)) form = None) as ->;
      [|reflexivity].
    apply head_filter_none. intros n Hn.
    destruct n as [s|name classes attrs contents]; [reflexivity|].
    unfold string_matches.
    destruct (decide (name = lit "span")) as [->|Hname].
    + destruct (node_string (Tag (lit "span") classes attrs contents))
        as [text|] eqn:Etext; [|apply andb_false_r].
      rewrite (re_search_total_none text); [apply andb_false_r|].
      eapply Hspans; eassumption.
    + now rewrite bool_decide_eq_false_2.
Qed.

Lemma image_card_both album_folder page card image_details w img_tag title_tag :
  find (Strainer (lit "img") None [lit "data-origin-src"]) card = Some img_tag ->
  find (Strainer (lit "h3") None [lit "title"]) card = Some title_tag ->
  exists src title w',
    tag_get img_tag (lit "data-origin-src") = Some src
    /\ tag_get title_tag (lit "title") = Some title
    /\ image_card album_folder page card image_details w =
         (Ret (image_details ++
               [(if startswith src (lit "//") then lit "https:" ++ src else src,
                 destination_path album_folder page title)]),
          w')
    /\ files w' = files w /\ dirs w' = dirs w /\ pending w' = pending w.
Proof.
  intros Himg Htitle.
  destruct (find_some _ _ _ Himg) as [_ Mi].
  destruct (find_some _ _ _ Htitle) as [_ Mt].
  destruct (tag_matches_attr _ _ (lit "data-origin-src") Mi) as [src Hsrc];
    [now left|].
  destruct (tag_matches_attr _ _ (lit "title") Mt) as [title Ht]; [now left|].
  unfold image_card. rewrite Himg, Htitle.
  unfold tag_getitem. rewrite Hsrc, Ht.
  destruct (startswith src (lit "//")) eqn:E.
  - exists src, title. eexists. unfold bind, lift, print, emit, ret.
    rewrite E. simpl. repeat split; reflexivity.
  - exists src, title, w. unfold bind, lift, ret. rewrite E.
    repeat split; reflexivity.
Qed.

Lemma image_card_missing album_folder page card image_details w :
  find (Strainer (lit "img") None [lit "data-origin-src"]) card = None
  \/ find (Strainer (lit "h3") None [lit "title"]) card = None ->
  image_card album_folder page card image_details w = (Ret image_details, w).
Proof.
  intros [H|H]; unfold image_card; rewrite H.
  - reflexivity.
  - destruct (find (Strainer (lit "img") None [lit "data-origin-src"]) card);
      reflexivity.
Qed.


End PageFacts.

(** ** Page numbers in file names *)

Lemma digits_of_uint_digits d : Forall (fun c => ascii_digit c = true) (digits_of_uint d).
Proof. induction d; simpl; constructor; auto. Qed.

Lemma digits_of_uint_inj d d' : digits_of_uint d = digits_of_uint d' -> d = d'.
Proof.
  revert d'. induction d; intros d'; destruct d'; simpl;
    intros H; try discriminate; try reflexivity;
    injection H as H; f_equal; auto.
Qed.


Lemma str_of_int_digits n : Forall (fun c => ascii_digit c = true) (str_of_int n).
Proof. apply digits_of_uint_digits. Qed.


Lemma startswith_cons_false c s : c <> SLASH -> startswith (c :: s) [SLASH] = false.
Proof. intros H. simpl. now destruct (N.eqb_spec c SLASH). Qed.


Section NamingFacts.
Context {R : Runtime}.
Hypothesis digits_alnum : forall c, ascii_digit c = true -> isalnum c = true.
Hypothesis digits_not_space : forall c, ascii_digit c = true -> isspace c = false.
Hypothesis underscore_not_space : isspace UNDERSCORE = false.


Lemma rstrip_app a s : rstrip s <> [] -> rstrip (a ++ s) = a ++ rstrip s.
Proof.
  intros H. induction a as [|x a IH]; [reflexivity|].
  simpl app. rewrite rstrip_cons, IH.
  destruct (a ++ rstrip s) eqn:E; [|reflexivity].
  now destruct a, (rstrip s).
Qed.






(** Every record of a page carries a destination of that page. *)
Lemma image_card_paths folder page card acc w :
  exists l w',
    image_card folder page card acc w = (Ret l, w')
    /\ forall d, In d l -> In d acc \/ exists title, snd d = destination_path folder page title.
Proof.
  destruct (find (Strainer (lit "img") None [lit "data-origin-src"]) card)
    as [img_tag|] eqn:Ei.
  - destruct (find (Strainer (lit "h3") None [lit "title"]) card)
      as [title_tag|] eqn:Et.
    + destruct (image_card_both folder page card acc w _ _ Ei Et)
        as (src & title & w' & _ & _ & -> & _).
      eexists _, _. split; [reflexivity|].
      intros d Hd. apply in_app_or in Hd as [Hd|[<-|[]]]; [now left|].
      right. now exists title.
    + exists acc, w. split; [apply image_card_missing|]; auto.
  - exists acc, w. split; [apply image_card_missing|]; auto.
Qed.

Lemma image_cards_loop_paths folder page cards acc w :
  exists l w',
    image_cards_loop folder page cards acc w = (Ret l, w')
    /\ forall d, In d l -> In d acc \/ exists title, snd d = destination_path folder page title.
Proof.
  revert acc w. induction cards as [|card cards IH]; intros acc w.
  - exists acc, w. split; [reflexivity|auto].
  - destruct (image_card_paths folder page card acc w) as (l1 & w1 & E1 & H1).
    destruct (IH l1 w1) as (l & w' & E & H).
    exists l, w'. split.
    + simpl. unfold bind. now rewrite E1.
    + intros d Hd. destruct (H d Hd) as [Hin|Hex]; auto.
Qed.


End NamingFacts.

(** ** Downloading one image *)

Lemma reply_at_next w w' i :
  pending w' = tail (pending w) -> reply_at w' i = reply_at w (S i).
Proof.
  unfold reply_at. intros ->. destruct (pending w) as [|r l]; simpl; [|reflexivity].
  now destruct i.
Qed.

Lemma timing_app t t' : timing (t ++ t') = timing t ++ timing t'.
Proof. apply List.filter_app. Qed.

Lemma write_chunks path cs w :
  exists w',
    for_each cs (file_write path) w = (Ret tt, w')
    /\ trace w' = trace w /\ pending w' = pending w /\ dirs w' = dirs w.
Proof.
  revert w. induction cs as [|c cs IH]; intros w.
  - exists w. repeat split.
  - simpl. unfold bind. simpl.
    destruct (IH (snd (file_write path c w))) as (w' & E & Ht & Hp & Hd).
    exists w'. simpl in *. auto.
Qed.

(** A round whose request is refused writes nothing. *)
Lemma attempt_round_refused url path attempt w :
  refused (reply_at w 0) = true ->
  exists w',
    attempt_round url path attempt w = (Ret false, w')
    /\ trace w' = trace w ++ [Get url; Print (AttemptFailed (attempt + 1) url); Sleep 2]
    /\ pending w' = tail (pending w)
    /\ files w' = files w /\ dirs w' = dirs w.
Proof.
  destruct w as [csv ds fs p t]. unfold reply_at. simpl.
  unfold attempt_round, try_except, download_attempt, bind, session_get. simpl.
  destruct p as [|[|r] rest]; simpl.
  - intros _. eexists. split; [reflexivity|]. simpl. rewrite <- !app_assoc. auto.
  - intros _. eexists. split; [reflexivity|]. simpl. rewrite <- !app_assoc. auto.
  - unfold error_status, raise_for_status. intros ->. simpl.
    eexists. split; [reflexivity|]. simpl. rewrite <- !app_assoc. auto.
Qed.

(** A round that fails, before or while the body is written. *)
Lemma attempt_round_failing url path attempt w :
  failing (reply_at w 0) = true ->
  exists w' t,
    attempt_round url path attempt w = (Ret false, w')
    /\ trace w' = trace w ++ t
    /\ timing t = [Get url; Sleep 2]
    /\ pending w' = tail (pending w).
Proof.
  intros H.
  destruct (refused (reply_at w 0)) eqn:Hr.
  - destruct (attempt_round_refused url path attempt w Hr) as (w' & E & Ht & Hp & _).
    exists w', [Get url; Print (AttemptFailed (attempt + 1) url); Sleep 2]. auto.
  - destruct w as [csv ds fs p t]. unfold reply_at in *. simpl in *.
    destruct p as [|[|r] rest]; simpl in *; try discriminate.
    unfold error_status in *. rewrite Hr in H. simpl in H.
    apply negb_true_iff in H.
    unfold attempt_round, try_except, download_attempt, bind, session_get,
      raise_for_status. simpl. rewrite Hr. simpl.
    match goal with
    | |- context [for_each ?cs ?f ?w0] =>
        destruct (write_chunks path cs w0) as (w1 & -> & Ht & Hp & _)
    end.
    rewrite H. simpl. eexists _, (Get url :: OpenWrite path :: _).
    split; [reflexivity|]. simpl. rewrite Ht, Hp. simpl.
    rewrite <- !app_assoc. simpl. split; [reflexivity|]. split; reflexivity.
Qed.

(** A round that succeeds. *)
Lemma attempt_round_done url path attempt w :
  failing (reply_at w 0) = false ->
  exists w' t,
    attempt_round url path attempt w = (Ret true, w')
    /\ trace w' = trace w ++ t
    /\ timing t = [Get url].
Proof.
  destruct w as [csv ds fs p t]. unfold reply_at. simpl.
  destruct p as [|[|r] rest]; simpl; try discriminate.
  intros H. apply orb_false_iff in H as [Hs Hc]. apply negb_false_iff in Hc.
  unfold error_status in Hs.
  unfold attempt_round, try_except, download_attempt, bind, session_get,
    raise_for_status. simpl. rewrite Hs. simpl.
  match goal with
  | |- context [for_each ?cs ?f ?w0] =>
      destruct (write_chunks path cs w0) as (w1 & -> & Ht & Hp & _)
  end.
  rewrite Hc. simpl. eexists _, [Get url; OpenWrite path; Print (Downloaded path)].
  split; [reflexivity|]. simpl. rewrite Ht. simpl. rewrite <- !app_assoc. auto.
Qed.

Lemma download_attempts_cons url path attempt rest w :
  download_attempts url path (attempt :: rest) w =
    match attempt_round url path attempt w with
    | (Ret true, w') => (Ret tt, w')
    | (Ret false, w') => download_attempts url path rest w'
    | (Raise e, w') => (Raise e, w')
    end.
Proof.
  simpl. unfold bind. destruct (attempt_round url path attempt w) as [[[|]|e] w'];
    reflexivity.
Qed.

(** The loop, for any number of attempts: [k] rounds fail, each followed
    by its pause, and the next one, if any is left, succeeds. *)
Lemma download_attempts_spec url path attempts w :
  exists w' t k,
    download_attempts url path attempts w = (Ret tt, w')
    /\ trace w' = trace w ++ t
    /\ (k <= length attempts)%nat
    /\ timing t =
         concat (replicate k [Get url; Sleep 2])
         ++ (if (k <? length attempts)%nat then [Get url] else [])
    /\ (forall i, (i < k)%nat -> failing (reply_at w i) = true)
    /\ ((k < length attempts)%nat -> failing (reply_at w k) = false)
    /\ ((k = length attempts)%nat -> In (Print (Skipping url)) t).
Proof.
  revert w. induction attempts as [|attempt rest IH]; intros w.
  - eexists _, [Print (Skipping url)], 0%nat. simpl.
    split; [reflexivity|]. repeat split; auto; lia.
  - rewrite download_attempts_cons.
    destruct (failing (reply_at w 0)) eqn:Hf.
    + destruct (attempt_round_failing url path attempt w Hf) as (w1 & t1 & -> & Ht1 & Hm1 & Hp1).
      destruct (IH w1) as (w' & t & k & -> & Ht & Hk & Hm & Hfail & Hnext & Hskip).
      exists w', (t1 ++ t), (S k). split; [reflexivity|].
      split; [now rewrite Ht, Ht1, app_assoc|].
      split; [simpl; lia|].
      split; [rewrite timing_app, Hm1, Hm; reflexivity|].
      split; [|split].
      * intros [|i] Hi; [assumption|].
        rewrite <- (reply_at_next w w1) by assumption. apply Hfail. lia.
      * intros Hlt. rewrite <- (reply_at_next w w1) by assumption.
        apply Hnext. simpl in Hlt. lia.
      * intros Heq. apply in_or_app. right. apply Hskip. simpl in Heq. lia.
    + destruct (attempt_round_done url path attempt w Hf) as (w1 & t1 & -> & Ht1 & Hm1).
      exists w1, t1, 0%nat. split; [reflexivity|]. split; [assumption|].
      split; [lia|]. split; [exact Hm1|].
      split; [intros i Hi; lia|]. split; [auto|]. simpl. discriminate.
Qed.

Lemma executor_map_cons {A} (f : A -> M unit) item items w :
  executor_map f (item :: items) w = executor_map f items (snd (f item w)).
Proof. reflexivity. Qed.

(** C4. An image is requested at most three times; every failed attempt
    is followed by a pause of 2, so two attempts are always 2 apart; when
    the third attempt fails too the image is reported as skipped.  In all
    cases [download_image] returns without raising and the batch goes on
    with the next item. *)
Theorem download_image_retries (image_url save_path : str) (w : world) :
  exists w' t k,
    download_image (image_url, save_path) w = (Ret tt, w')
    /\ trace w' = trace w ++ t
    /\ (k <= 3)%nat
    /\ timing t =
         concat (replicate k [Get image_url; Sleep 2])
         ++ (if (k <? 3)%nat then [Get image_url] else [])
    /\ (forall i, (i < k)%nat -> failing (reply_at w i) = true)
    /\ ((k < 3)%nat -> failing (reply_at w k) = false)
    /\ ((k = 3)%nat -> In (Print (Skipping image_url)) t)
    /\ (failing (reply_at w 0) = true -> failing (reply_at w 1) = true ->
        failing (reply_at w 2) = true ->
        timing t =
          [Get image_url; Sleep 2; Get image_url; Sleep 2; Get image_url; Sleep 2]
        /\ In (Print (Skipping image_url)) t)
    /\ (forall items,
          executor_map download_image ((image_url, save_path) :: items) w
          = executor_map download_image items w').
Proof.
  destruct (download_attempts_spec image_url save_path (range 0 3) w)
    as (w' & t & k & E & Ht & Hk & Hm & Hfail & Hnext & Hskip).
  change (length (range 0 3)) with 3%nat in *.
  exists w', t, k. unfold download_image. rewrite E.
  repeat (split; [assumption || reflexivity|]). split.
  - intros H0 H1 H2.
    assert (k = 3)%nat as ->.
    { destruct k as [|[|[|k]]]; try (specialize (Hnext ltac:(lia)); congruence). lia. }
    split; [exact Hm|now apply Hskip].
  - intros items. rewrite executor_map_cons. unfold download_image. now rewrite E.
Qed.

Lemma download_attempts_refused url path attempts w :
  (forall i, (i < length attempts)%nat -> refused (reply_at w i) = true) ->
  exists w',
    download_attempts url path attempts w = (Ret tt, w')
    /\ files w' = files w /\ dirs w' = dirs w.
Proof.
  revert w. induction attempts as [|attempt rest IH]; intros w H.
  - eexists. split; [reflexivity|]. auto.
  - rewrite download_attempts_cons.
    destruct (attempt_round_refused url path attempt w) as (w1 & -> & _ & Hp & Hf & Hd).
    { apply H. simpl. lia. }
    destruct (IH w1) as (w' & -> & Hf' & Hd').
    { intros i Hi. rewrite (reply_at_next w w1) by assumption.
      apply H. simpl. lia. }
    exists w'. split; [reflexivity|]. split; congruence.
Qed.

(** C2, as amended. When each of the three attempts is refused before
    anything is written (no response, or an error status), the download
    leaves every file as it was: no file appears at the destination path
    if none was there; the call returns and the batch goes on with the
    next item. *)
Theorem refused_download_writes_nothing (image_url save_path : str) (w : world) :
  refused (reply_at w 0) = true ->
  refused (reply_at w 1) = true ->
  refused (reply_at w 2) = true ->
  exists w',
    download_image (image_url, save_path) w = (Ret tt, w')
    /\ files w' = files w
    /\ (files w !! save_path = None -> files w' !! save_path = None)
    /\ (forall items,
          executor_map download_image ((image_url, save_path) :: items) w
          = executor_map download_image items w').
Proof.
  intros H0 H1 H2.
  destruct (download_attempts_refused image_url save_path (range 0 3) w)
    as (w' & E & Hf & _).
  { intros [|[|[|i]]] Hi; try assumption. simpl in Hi. lia. }
  exists w'. unfold download_image. rewrite E.
  split; [reflexivity|]. split; [assumption|]. split; [now rewrite Hf|].
  intros items. rewrite executor_map_cons. unfold download_image. now rewrite E.
Qed.

(** ** What a run never undoes *)

Lemma steady_refl w : steady w w.
Proof. split; [exists []; now rewrite app_nil_r|reflexivity]. Qed.

Lemma steady_trans w1 w2 w3 : steady w1 w2 -> steady w2 w3 -> steady w1 w3.
Proof.
  intros [[t Ht] Hd] [[t' Ht'] Hd']. split.
  - exists (t ++ t'). now rewrite Ht', Ht, app_assoc.
  - now transitivity (dirs w2).
Qed.

Lemma progressive_ret {A} (a : A) : progressive (ret a).
Proof. intros w. apply steady_refl. Qed.

Lemma progressive_raise {A} e : progressive (@raise A e).
Proof. intros w. apply steady_refl. Qed.

Lemma progressive_lift {A} (o : outcome A) : progressive (lift o).
Proof. intros w. apply steady_refl. Qed.

Lemma progressive_bind {A B} (m : M A) (k : A -> M B) :
  progressive m -> (forall a, progressive (k a)) -> progressive (bind m k).
Proof.
  intros Hm Hk w. unfold bind. specialize (Hm w).
  destruct (m w) as [[a|e] w1]; simpl in *; [|assumption].
  eapply steady_trans; [eassumption|apply Hk].
Qed.

Lemma progressive_try {A} (m : M A) caught handler :
  progressive m -> (forall e, progressive (handler e)) ->
  progressive (try_except m caught handler).
Proof.
  intros Hm Hh w. unfold try_except. specialize (Hm w).
  destruct (m w) as [[a|e] w1]; simpl in *; [assumption|].
  destruct (caught e); [|assumption].
  eapply steady_trans; [eassumption|apply Hh].
Qed.

Lemma progressive_for {A} (xs : list A) (body : A -> M unit) :
  (forall x, progressive (body x)) -> progressive (for_each xs body).
Proof.
  intros H. induction xs as [|x xs IH]; simpl.
  - apply progressive_ret.
  - apply progressive_bind; auto.
Qed.

Lemma progressive_emit e : progressive (emit e).
Proof. intros w. split; [now exists [e]|reflexivity]. Qed.

Lemma progressive_get url stream : progressive (session_get url stream).
Proof.
  intros w. unfold session_get.
  destruct (pending w) as [|[|r] rest]; try destruct (stream || complete r);
    (split; [now exists [Get url]|reflexivity]).
Qed.

Lemma progressive_status r : progressive (raise_for_status r).
Proof.
  unfold raise_for_status.
  destruct (_ && _); [apply progressive_raise|apply progressive_ret].
Qed.

Lemma progressive_makedirs path : progressive (makedirs path).
Proof.
  intros w. split; [now exists [Makedirs path]|]. simpl. apply union_subseteq_l.
Qed.

Lemma progressive_open path : progressive (open_wb path).
Proof. intros w. split; [now exists [OpenWrite path]|reflexivity]. Qed.

Lemma progressive_write path chunk : progressive (file_write path chunk).
Proof.
  intros w. split; [exists []; simpl; now rewrite app_nil_r|reflexivity].
Qed.

Lemma progressive_future {A} (m : M A) : progressive m -> progressive (in_future m).
Proof. intros H w. apply H. Qed.

Lemma progressive_try_get url failure : progressive (try_get url failure).
Proof.
  apply progressive_try.
  - apply progressive_bind; [apply progressive_get|intros r].
    apply progressive_bind; [apply progressive_status|intros _].
    apply progressive_ret.
  - intros _. apply progressive_bind; [apply progressive_emit|intros _].
    apply progressive_ret.
Qed.

Create HintDb progress.
#[local] Hint Resolve progressive_ret progressive_raise progressive_lift
  progressive_emit progressive_get progressive_status progressive_makedirs
  progressive_open progressive_write progressive_try_get : progress.

Ltac progress_step :=
  lazymatch goal with
  | |- progressive (bind _ _) => apply progressive_bind; [|intros ?]
  | |- progressive (try_except _ _ _) => apply progressive_try; [|intros ?]
  | |- progressive (for_each _ _) => apply progressive_for; intros ?
  | |- progressive (in_future _) => apply progressive_future
  | |- progressive (if ?b then _ else _) => destruct b
  | |- progressive (match ?x with _ => _ end) => destruct x
  | |- progressive _ => solve [auto with progress]
  end.

Lemma progressive_download_image item : progressive (download_image item).
Proof.
  destruct item as [url path]. unfold download_image.
  induction (range 0 3) as [|attempt rest IH]; simpl.
  - apply progressive_emit.
  - unfold attempt_round, download_attempt, print, sleep.
    repeat progress_step.
Qed.

Section AlbumFacts.
Context {R : Runtime}.

Lemma progressive_image_cards folder page cards acc :
  progressive (image_cards_loop folder page cards acc).
Proof.
  revert acc. induction cards as [|card cards IH]; intros acc; simpl.
  - apply progressive_ret.
  - apply progressive_bind; [|intros ?; apply IH].
    unfold image_card, print. repeat progress_step.
Qed.

Lemma progressive_album_page link album_title album_folder page :
  progressive (album_page link album_title album_folder page).
Proof.
  unfold album_page, executor_map, print. repeat progress_step.
  - apply progressive_image_cards.
  - apply progressive_download_image.
Qed.

Lemma startswith_length a b : startswith a b = true -> (length b <= length a)%nat.
Proof.
  revert a. induction b as [|y b IH]; intros a; simpl; [lia|].
  destruct a as [|x a]; [discriminate|].
  intros H. apply andb_true_iff in H as [_ H]. apply IH in H. simpl. lia.
Qed.

Lemma prefixes_at_slash_length seen todo p :
  In p (prefixes_at_slash seen todo) -> (length p <= length seen + length todo)%nat.
Proof.
  revert seen. induction todo as [|c todo IH]; intros seen; simpl.
  - intros [<-|[]]. lia.
  - intros H. apply in_app_or in H as [H|H].
    + destruct (c =? SLASH); [|destruct H]. destruct H as [<-|[]]. lia.
    + apply IH in H. rewrite length_app in H. simpl in H. lia.
Qed.

Lemma prefixes_at_slash_whole seen todo :
  In (seen ++ todo) (prefixes_at_slash seen todo).
Proof.
  revert seen. induction todo as [|c todo IH]; intros seen; simpl.
  - left. now rewrite app_nil_r.
  - apply in_or_app. right.
    replace (seen ++ c :: todo) with ((seen ++ [c]) ++ todo) by now rewrite <- app_assoc.
    apply IH.
Qed.

Lemma ancestors_self path : path <> [] -> In path (ancestors path).
Proof.
  intros H. apply filter_In. split; [apply (prefixes_at_slash_whole [] path)|].
  now rewrite bool_decide_eq_false_2.
Qed.

Lemma ancestors_not_under path p : In p (ancestors path) -> under path p = false.
Proof.
  intros H. apply filter_In in H as [H _].
  apply prefixes_at_slash_length in H. simpl in H.
  destruct (under path p) eqn:E; [|reflexivity].
  apply startswith_length in E. rewrite length_app in E. simpl in E. lia.
Qed.

Lemma os_path_join_nonempty a b : a <> [] -> os_path_join a b <> [].
Proof.
  intros H. unfold os_path_join.
  destruct (startswith b [SLASH]) eqn:E.
  - destruct b; [discriminate|discriminate].
  - destruct (bool_decide (a = []) || endswith a [SLASH]); now destruct a.
Qed.

(** What is left of an album once its first page has been answered. *)
Lemma progressive_album_rest link album_title album_folder (fetched : option response) :
  progressive
    (match fetched with
     | None => ret tt
     | Some response =>
         total_pages <- lift (get_total_pages (html response)) ;;
         print (TotalPagesAlbum album_title total_pages) ;;
         for_each (range 1 (total_pages + 1))
           (album_page link album_title album_folder) ;;
         print (AlbumDone album_title)
     end).
Proof.
  destruct fetched as [response|]; [|apply progressive_ret].
  unfold print. repeat progress_step. apply progressive_album_page.
Qed.

Lemma bind_ret {A B} (m : M A) (k : A -> M B) w a w1 :
  m w = (Ret a, w1) -> bind m k w = k a w1.
Proof. intros H. unfold bind. now rewrite H. Qed.

(** The protected GET: it never raises; a failing reply is reported and
    gives [None], any other reply is handed over. *)
Lemma try_get_spec url failure w :
  exists fetched w1,
    try_get url failure w = (Ret fetched, w1)
    /\ pending w1 = tail (pending w) /\ files w1 = files w /\ dirs w1 = dirs w
    /\ input_csv w1 = input_csv w
    /\ ((failing (reply_at w 0) = true /\ fetched = None
          /\ trace w1 = trace w ++ [Get url; Print failure])
        \/ (failing (reply_at w 0) = false
            /\ (exists r, reply_at w 0 = Answer r /\ fetched = Some r)
            /\ trace w1 = trace w ++ [Get url])).
Proof.
  destruct w as [csv ds fs p t]. unfold reply_at. cbn [pending].
  unfold try_get, try_except, bind, session_get, raise_for_status, print, emit, ret, raise.
  cbn [input_csv dirs files pending trace].
  destruct p as [|[|r] rest]; cbn [nth failing orb is_request_exception tail].
  - eexists _, _. split; [reflexivity|]. cbn [input_csv dirs files pending trace].
    repeat (split; [reflexivity|]). left. rewrite <- app_assoc. auto.
  - eexists _, _. split; [reflexivity|]. cbn [input_csv dirs files pending trace].
    repeat (split; [reflexivity|]). left. rewrite <- app_assoc. auto.
  - unfold error_status. destruct (complete r); cbn [negb is_request_exception].
    + destruct ((400 <=? status r) && (status r <? 600)); cbn [orb is_request_exception].
      * eexists _, _. split; [reflexivity|]. cbn [input_csv dirs files pending trace].
        repeat (split; [reflexivity|]). left. rewrite <- app_assoc. auto.
      * eexists _, _. split; [reflexivity|]. cbn [input_csv dirs files pending trace].
        repeat (split; [reflexivity|]). right. eauto.
    + rewrite orb_true_r.
      eexists _, _. split; [reflexivity|]. cbn [input_csv dirs files pending trace].
      repeat (split; [reflexivity|]). left. rewrite <- app_assoc. auto.
Qed.

(** C10, as amended. The album folder, the base folder joined with the
    sanitized title (the base folder itself when the title sanitizes to
    the empty name), is made before anything of the album is requested,
    and it is there when the call is over.  When the
    first request of the album fails, the album is given up: the call
    returns after reporting the failure, and the folder is left behind
    with what was below it before, no more and no less: no file has been
    written or removed, and the only directories added are the folder and
    those above it.  So the folder left behind is empty exactly when
    nothing was below it before the call. *)
Theorem album_folder_made_first (link album_title base_folder : str) (w : world) :
  base_folder <> [] ->
  (exists o w' t,
     download_images_from_album link album_title base_folder w = (o, w')
     /\ trace w' =
          trace w ++
          Makedirs (os_path_join base_folder (sanitize_folder_name album_title))
          :: Print (FetchingAlbum album_title) :: Get link :: t
     /\ os_path_join base_folder (sanitize_folder_name album_title) ∈ dirs w')
  /\ (failing (reply_at w 0) = true ->
      exists w',
        download_images_from_album link album_title base_folder w = (Ret tt, w')
        /\ trace w' =
             trace w ++
             [Makedirs (os_path_join base_folder (sanitize_folder_name album_title));
              Print (FetchingAlbum album_title); Get link; Print FailedAlbum]
        /\ os_path_join base_folder (sanitize_folder_name album_title) ∈ dirs w'
        /\ files w' = files w
        /\ dirs w' =
             dirs w ∪ list_to_set
               (ancestors (os_path_join base_folder (sanitize_folder_name album_title)))
        /\ (empty_dir w' (os_path_join base_folder (sanitize_folder_name album_title))
            <-> empty_dir w (os_path_join base_folder (sanitize_folder_name album_title)))).
Proof.
  intros Hbase.
  set (F := os_path_join base_folder (sanitize_folder_name album_title)).
  assert (HF : F <> []) by now apply os_path_join_nonempty.
  set (w2 := snd (print (FetchingAlbum album_title) (snd (makedirs F w)))).
  destruct (try_get_spec link FailedAlbum w2)
    as (fetched & w3 & E & Hp & Hf & Hd & _ & Hcase).
  assert (Hrun : forall k : option response -> M unit,
            (makedirs F ;; print (FetchingAlbum album_title) ;;
             fetched <- try_get link FailedAlbum ;; k fetched) w = k fetched w3).
  { intros k. erewrite bind_ret by reflexivity. erewrite bind_ret by reflexivity.
    fold w2. now erewrite bind_ret by exact E. }
  assert (HFin : F ∈ dirs w3).
  { rewrite Hd. cbn. apply elem_of_union_r, elem_of_list_to_set, list_elem_of_In.
    now apply ancestors_self. }
  split.
  - unfold download_images_from_album. fold F. rewrite Hrun.
    destruct (progressive_album_rest link album_title F fetched w3) as [[t Ht] Hsub].
    match goal with |- context [?m w3] => destruct (m w3) as [o w'] eqn:Erest end.
    cbn [snd] in Ht, Hsub.
    destruct Hcase as [(_ & _ & Ht3)|(_ & _ & Ht3)].
    + exists o, w', (Print FailedAlbum :: t). split; [reflexivity|]. split; [|auto].
      rewrite Ht, Ht3. cbn. rewrite <- !app_assoc. reflexivity.
    + exists o, w', t. split; [reflexivity|]. split; [|auto].
      rewrite Ht, Ht3. cbn. rewrite <- !app_assoc. reflexivity.
  - intros Hfail.
    destruct Hcase as [(_ & -> & Ht3)|(Hok & _)].
    2:{ unfold reply_at in *. cbn in Hok. congruence. }
    exists w3. unfold download_images_from_album. fold F. rewrite Hrun.
    split; [reflexivity|]. split; [|split; [assumption|split; [|split; [|split]]]].
    + rewrite Ht3. cbn. rewrite <- !app_assoc. reflexivity.
    + now rewrite Hf.
    + now rewrite Hd.
    + intros [Hfiles Hdirs]. split.
      * intros q Hq. apply Hfiles. now rewrite Hf.
      * intros q Hq. apply Hdirs. rewrite Hd. cbn. now apply elem_of_union_l.
    + intros [Hfiles Hdirs]. split.
      * intros q Hq. apply Hfiles. now rewrite Hf in Hq.
      * intros q Hq. rewrite Hd in Hq. cbn in Hq.
        apply elem_of_union in Hq as [Hq|Hq]; [now apply Hdirs|].
        apply elem_of_list_to_set, list_elem_of_In in Hq.
        now apply ancestors_not_under.
Qed.

End AlbumFacts.

(** ** Reading the seeds *)

Lemma fold_insert_keys_absent {V} (v : V) (keys : list (list N)) (d : gmap (list N) V) key :
  ~ In key keys -> d !! key = None ->
  fold_left (fun d k => <[k := v]> d) keys d !! key = None.
Proof.
  revert d. induction keys as [|k keys IH]; intros d Hin Hd; simpl; [assumption|].
  apply IH.
  - intros H. apply Hin. now right.
  - rewrite lookup_insert_ne; [assumption|]. intros ->. apply Hin. now left.
Qed.

Lemma fold_insert_pairs_absent (kvs : list (list N * list N))
    (d : gmap (list N) (option (list N))) key :
  ~ In key (List.map fst kvs) -> d !! key = None ->
  fold_left (fun d kv => <[fst kv := Some (snd kv)]> d) kvs d !! key = None.
Proof.
  revert d. induction kvs as [|kv kvs IH]; intros d Hin Hd; simpl; [assumption|].
  apply IH.
  - intros H. apply Hin. now right.
  - rewrite lookup_insert_ne; [assumption|]. intros E. apply Hin. now left.
Qed.

Lemma In_drop {A} n (l : list A) x : In x (drop n l) -> In x l.
Proof.
  revert l. induction n as [|n IH]; intros [|a l]; simpl; auto.
Qed.

Lemma In_fst_combine {A B} (l : list A) (l' : list B) x :
  In x (List.map fst (combine l l')) -> In x l.
Proof.
  intros H. apply in_map_iff in H as [[a b] [<- H]].
  eapply in_combine_l. exact H.
Qed.

(** A row read under field names that lack a key has no entry for it. *)
Lemma row_dict_absent fieldnames row key :
  ~ In key fieldnames -> row_dict fieldnames row !! key = None.
Proof.
  intros H. unfold row_dict. apply fold_insert_keys_absent.
  - intros Hd. apply H. eapply In_drop. exact Hd.
  - apply fold_insert_pairs_absent; [|apply lookup_empty].
    intros Hc. apply H. eapply In_fst_combine. exact Hc.
Qed.

Section RunFacts.
Context {R : Runtime}.

Lemma url_column_absent rows :
  (forall row, In row rows -> row !! lit "URL" = None) -> url_column rows = Ret [].
Proof.
  induction rows as [|row rows IH]; intros H; [reflexivity|].
  simpl. unfold dict_contains. rewrite (H row) by now left.
  apply IH. intros r Hr. apply H. now right.
Qed.

Lemma load_links_ok w table links :
  input_csv w = Some table ->
  url_column (DictReader table) = Ret links ->
  load_links w = (Ret (Some links), w).
Proof.
  intros Hcsv Hcol. unfold load_links, try_except, bind, open_input, lift.
  now rewrite Hcsv, Hcol.
Qed.

(** A table without a [URL] column is read as an empty list of seeds. *)
Lemma load_links_without_url w fieldnames data :
  input_csv w = Some (fieldnames :: data) ->
  ~ In (lit "URL") fieldnames ->
  load_links w = (Ret (Some []), w).
Proof.
  intros Hcsv Hno. apply (load_links_ok w (fieldnames :: data)); [assumption|].
  apply url_column_absent. intros row Hrow. simpl in Hrow.
  apply in_map_iff in Hrow as [r [<- _]]. now apply row_dict_absent.
Qed.

(** C3. What the script does with a table that has no [URL] column: no
    exception is met, so nothing is reported; the list of seeds is empty,
    nothing is requested, and the run ends with its message of success. *)
Theorem missing_url_column_goes_unreported (w : world) (fieldnames : list str)
    (data : list (list str)) :
  input_csv w = Some (fieldnames :: data) ->
  ~ In (lit "URL") fieldnames ->
  exists w',
    download_images_from_yupoo_main w = (Ret tt, w')
    /\ trace w' = trace w ++ [Print AllDone]
    /\ pending w' = pending w.
Proof.
  intros Hcsv Hno. eexists.
  unfold download_images_from_yupoo_main.
  erewrite bind_ret by (eapply load_links_without_url; eassumption).
  split; [reflexivity|]. split; reflexivity.
Qed.

Lemma re_match_origin_none s :
  startswith s (lit "https://") = false -> re_match_origin s = None.
Proof. intros H. unfold re_match_origin. now rewrite H. Qed.

Lemma category_no_origin url w :
  re_match_origin (strip url) = None ->
  category (Some url) w = (Raise AttributeError, w).
Proof.
  intros H. unfold category. erewrite bind_ret by reflexivity.
  rewrite H. reflexivity.
Qed.

(** An exception in the body ends the loop: what follows is not run. *)
Lemma for_each_raises {A} (before after : list A) (x : A) (body : A -> M unit) e w :
  (forall u, body x u = (Raise e, u)) ->
  for_each (before ++ x :: after) body w =
    match for_each before body w with
    | (Ret _, w1) => (Raise e, w1)
    | (Raise e', w1) => (Raise e', w1)
    end.
Proof.
  intros Hx. revert w. induction before as [|b before IH]; intros w; simpl.
  - unfold bind. now rewrite Hx.
  - unfold bind. destruct (body b w) as [[[]|e'] w1]; [apply IH|reflexivity].
Qed.

(** C9, as amended. A seed that, once stripped of surrounding whitespace,
    does not start with "https://" makes the script raise AttributeError
    when it is reached, before anything is printed or requested for it;
    the exception is not caught: the seeds after it are never run and the
    whole run ends with an exception instead of its closing message. *)
Theorem seed_without_https_aborts (before after : list (option str)) (url : str)
    (table : list (list str)) (w : world) :
  startswith (strip url) (lit "https://") = false ->
  input_csv w = Some table ->
  url_column (DictReader table) = Ret (before ++ Some url :: after) ->
  (forall u, category (Some url) u = (Raise AttributeError, u))
  /\ download_images_from_yupoo_main w =
       match for_each before category w with
       | (Ret _, w1) => (Raise AttributeError, w1)
       | (Raise e, w1) => (Raise e, w1)
       end.
Proof.
  intros Hurl Hcsv Hcol.
  assert (Hseed : forall u, category (Some url) u = (Raise AttributeError, u)).
  { intros u. now apply category_no_origin, re_match_origin_none. }
  split; [exact Hseed|].
  unfold download_images_from_yupoo_main.
  erewrite bind_ret by (eapply load_links_ok; eassumption).
  unfold bind at 1. rewrite (for_each_raises before after (Some url) category AttributeError)
    by exact Hseed.
  destruct (for_each before category w) as [[[]|e] w1]; reflexivity.
Qed.

End RunFacts.

(** * Part III: the statements on concrete runs

    The runs below use the ASCII runtime on ASCII inputs. *)

Example sanitize_spring_summer :
  sanitize_folder_name (R := ascii_runtime) (lit "  Spring/Summer 2020!  ")
  = lit "Spring_Summer 2020_".
Proof. vm_compute. reflexivity. Qed.

Example numbered_page_total :
  get_total_pages (R := ascii_runtime) sample_numbered_page = Ret 12.
Proof. vm_compute. reflexivity. Qed.

Example origin_of_seed :
  re_match_origin (lit "https://x.yupoo.com/albums?tab=gallery")
  = Some (lit "https://x.yupoo.com").
Proof. vm_compute. reflexivity. Qed.





(** C2 as stated fails.  The folder of the destination exists; the first
    attempt receives one chunk before the connection breaks and the other
    two get no response.  All three attempts have failed, and the chunk is
    left under the destination path. *)
Lemma broken_stream_leaves_partial_file :
  lit "Images/c/a"
    ∈ dirs (world_in_folder (lit "Images/c/a") [image_reply [[Byte.x01]] false])
  /\ failing (reply_at (world_in_folder (lit "Images/c/a")
                          [image_reply [[Byte.x01]] false]) 0) = true
  /\ failing (reply_at (world_in_folder (lit "Images/c/a")
                          [image_reply [[Byte.x01]] false]) 1) = true
  /\ failing (reply_at (world_in_folder (lit "Images/c/a")
                          [image_reply [[Byte.x01]] false]) 2) = true
  /\ files (world_in_folder (lit "Images/c/a") [image_reply [[Byte.x01]] false])
       !! lit "Images/c/a/1_A.jpg" = None
  /\ exists w',
       download_image (lit "https://photo.example.com/1.jpg", lit "Images/c/a/1_A.jpg")
         (world_in_folder (lit "Images/c/a") [image_reply [[Byte.x01]] false])
       = (Ret tt, w')
       /\ files w' !! lit "Images/c/a/1_A.jpg" = Some [Byte.x01].
Proof.
  split.
  { apply elem_of_list_to_set, list_elem_of_In. vm_compute. auto. }
  repeat (split; [reflexivity|]).
  eexists. split; [vm_compute; reflexivity|]. vm_compute. reflexivity.
Qed.

(** C8 as stated fails for the file component of an image: the page
    number, the title and the suffix give 1_A.jpg, whose dot is neither
    alphanumeric nor a space nor an underscore. *)
Lemma file_component_has_a_dot :
  destination_path (R := ascii_runtime) (lit "Images/c/a") 1 (lit "A")
  = lit "Images/c/a" ++ SLASH :: lit "1_A.jpg"
  /\ In 46 (lit "1_A.jpg")
  /\ @isalnum ascii_runtime 46 = false /\ 46 <> SPACE /\ 46 <> UNDERSCORE.
Proof.
  split; [vm_compute; reflexivity|]. split; [vm_compute; auto 10|].
  split; [reflexivity|]. split; discriminate.
Qed.

(** C10 as stated fails.  The album folder exists and holds a file, as
    after an album of the same sanitized title; the first request of the
    album fails and the album is given up: the folder left behind is not
    empty.  And an album whose title is blank has no folder of its own:
    its folder is the base folder. *)
Lemma filled_album_folder_stays_filled :
  (failing (reply_at (world_with_file (lit "Images/c/Spring_Summer") (lit "1_A.jpg")
                        [Byte.x01] []) 0) = true
   /\ exists w',
        download_images_from_album (R := ascii_runtime)
          (lit "https://x.yupoo.com/albums/1?uid=1") (lit "Spring/Summer")
          (lit "Images/c")
          (world_with_file (lit "Images/c/Spring_Summer") (lit "1_A.jpg") [Byte.x01] [])
        = (Ret tt, w')
        /\ lit "Images/c/Spring_Summer" ∈ dirs w'
        /\ files w' !! lit "Images/c/Spring_Summer/1_A.jpg" = Some [Byte.x01]
        /\ under (lit "Images/c/Spring_Summer") (lit "Images/c/Spring_Summer/1_A.jpg")
           = true)
  /\ os_path_join (lit "Images/c") (sanitize_folder_name (R := ascii_runtime) (lit "  "))
     = lit "Images/c/".
Proof.
  split; [split; [reflexivity|]|vm_compute; reflexivity].
  eexists. split; [vm_compute; reflexivity|]. split; [|split; vm_compute; reflexivity].
  vm_compute. reflexivity.
Qed.

(** The amended C2 with a network that is down. *)
Lemma refused_download_writes_nothing_witness :
  (refused (reply_at (world_of_replies []) 0) = true
   /\ refused (reply_at (world_of_replies []) 1) = true
   /\ refused (reply_at (world_of_replies []) 2) = true)
  /\ exists w',
       download_image (lit "https://photo.example.com/1.jpg", lit "Images/c/a/1_A.jpg")
         (world_of_replies [])
       = (Ret tt, w')
       /\ files w' = files (world_of_replies [])
       /\ (files (world_of_replies []) !! lit "Images/c/a/1_A.jpg" = None ->
           files w' !! lit "Images/c/a/1_A.jpg" = None)
       /\ (forall items,
             executor_map download_image
               ((lit "https://photo.example.com/1.jpg", lit "Images/c/a/1_A.jpg") :: items)
               (world_of_replies [])
             = executor_map download_image items w').
Proof.
  split; [repeat split|].
  apply refused_download_writes_nothing; reflexivity.
Defined.

(** C3 on a table whose only column is called Link. *)
Lemma missing_url_column_witness :
  (input_csv (world_of_table [[lit "Link"]; [lit "https://x.yupoo.com/albums"]])
   = Some ([lit "Link"] :: [[lit "https://x.yupoo.com/albums"]])
   /\ ~ In (lit "URL") [lit "Link"])
  /\ exists w',
       download_images_from_yupoo_main (R := ascii_runtime)
         (world_of_table [[lit "Link"]; [lit "https://x.yupoo.com/albums"]])
       = (Ret tt, w')
       /\ trace w' = [] ++ [Print AllDone]
       /\ pending w' = [].
Proof.
  assert (H : ~ In (lit "URL") [lit "Link"]).
  { intros [H|[]]. vm_compute in H. discriminate. }
  split; [split; [reflexivity|exact H]|].
  exact (missing_url_column_goes_unreported (R := ascii_runtime)
           (world_of_table [[lit "Link"]; [lit "https://x.yupoo.com/albums"]])
           [lit "Link"] [[lit "https://x.yupoo.com/albums"]] eq_refl H).
Defined.

(** C4 on an image whose three attempts get no response. *)
Lemma download_image_retries_witness :
  exists w' t k,
    download_image (lit "https://photo.example.com/1.jpg", lit "Images/c/a/1_A.jpg")
      (world_of_replies []) = (Ret tt, w')
    /\ trace w' = trace (world_of_replies []) ++ t
    /\ (k <= 3)%nat
    /\ timing t =
         concat (replicate k [Get (lit "https://photo.example.com/1.jpg"); Sleep 2])
         ++ (if (k <? 3)%nat then [Get (lit "https://photo.example.com/1.jpg")] else [])
    /\ (forall i, (i < k)%nat -> failing (reply_at (world_of_replies []) i) = true)
    /\ ((k < 3)%nat -> failing (reply_at (world_of_replies []) k) = false)
    /\ ((k = 3)%nat -> In (Print (Skipping (lit "https://photo.example.com/1.jpg"))) t)
    /\ (failing (reply_at (world_of_replies []) 0) = true ->
        failing (reply_at (world_of_replies []) 1) = true ->
        failing (reply_at (world_of_replies []) 2) = true ->
        timing t =
          [Get (lit "https://photo.example.com/1.jpg"); Sleep 2;
           Get (lit "https://photo.example.com/1.jpg"); Sleep 2;
           Get (lit "https://photo.example.com/1.jpg"); Sleep 2]
        /\ In (Print (Skipping (lit "https://photo.example.com/1.jpg"))) t)
    /\ (forall items,
          executor_map download_image
            ((lit "https://photo.example.com/1.jpg", lit "Images/c/a/1_A.jpg") :: items)
            (world_of_replies [])
          = executor_map download_image items w').
Proof. apply download_image_retries. Defined.

Lemma has_total_marker_gong {R : Runtime} text : has_total_marker text -> In GONG text.
Proof.
  intros (before & ds & after & -> & _). apply in_or_app. right. now left.
Qed.

(** C6 on a page whose pagination form only says "page 1". *)
Lemma get_total_pages_default_witness :
  (exists form,
     find (Strainer (lit "form") (Some (lit "pagination__jumpwrap")) [])
       sample_unnumbered_page = Some form
     /\ forall classes attrs contents text,
          In (Tag (lit "span") classes attrs contents) (descendants form) ->
          node_string (Tag (lit "span") classes attrs contents) = Some text ->
          ~ has_total_marker (R := ascii_runtime) text)
  /\ get_total_pages (R := ascii_runtime) sample_unnumbered_page = Ret 1.
Proof.
  assert (H : exists form,
     find (Strainer (lit "form") (Some (lit "pagination__jumpwrap")) [])
       sample_unnumbered_page = Some form
     /\ forall classes attrs contents text,
          In (Tag (lit "span") classes attrs contents) (descendants form) ->
          node_string (Tag (lit "span") classes attrs contents) = Some text ->
          ~ has_total_marker (R := ascii_runtime) text).
  { eexists. split; [vm_compute; reflexivity|].
    intros classes attrs contents text Hin Hstr Hmark.
    apply has_total_marker_gong in Hmark.
    destruct Hin as [Hin|[Hin|[]]]; [|discriminate Hin].
    injection Hin as <- <- <-. vm_compute in Hstr. injection Hstr as <-.
    vm_compute in Hmark. intuition discriminate. }
  split; [exact H|].
  apply get_total_pages_default. right. exact H.
Defined.


(** C9 as stated fails: a seed with a space in front does not start with
    "https://", yet nothing is raised: the seed is stripped, requested
    (here without success) and the run ends normally. *)
Lemma seed_with_leading_space_runs :
  startswith (lit " https://x.yupoo.com/albums") (lit "https://") = false
  /\ exists w',
       download_images_from_yupoo_main (R := ascii_runtime)
         (world_of_table [[lit "URL"]; [lit " https://x.yupoo.com/albums"]])
       = (Ret tt, w')
       /\ trace w' =
            [Print (FetchingCategory (lit "https://x.yupoo.com/albums"));
             Get (lit "https://x.yupoo.com/albums");
             Print FailedCategory; Print AllDone].
Proof.
  split; [reflexivity|].
  eexists. split; [vm_compute; reflexivity|]. vm_compute. reflexivity.
Qed.

(** The amended C9 on a table whose only seed is an http URL. *)
Lemma seed_without_https_aborts_witness :
  (startswith (strip (R := ascii_runtime) (lit "http://x.yupoo.com/albums"))
     (lit "https://") = false
   /\ input_csv (world_of_table [[lit "URL"]; [lit "http://x.yupoo.com/albums"]])
      = Some [[lit "URL"]; [lit "http://x.yupoo.com/albums"]]
   /\ url_column (DictReader [[lit "URL"]; [lit "http://x.yupoo.com/albums"]])
      = Ret ([] ++ Some (lit "http://x.yupoo.com/albums") :: []))
  /\ (forall u,
        category (R := ascii_runtime) (Some (lit "http://x.yupoo.com/albums")) u
        = (Raise AttributeError, u))
  /\ download_images_from_yupoo_main (R := ascii_runtime)
       (world_of_table [[lit "URL"]; [lit "http://x.yupoo.com/albums"]])
     = match
         for_each [] (category (R := ascii_runtime))
           (world_of_table [[lit "URL"]; [lit "http://x.yupoo.com/albums"]])
       with
       | (Ret _, w1) => (Raise AttributeError, w1)
       | (Raise e, w1) => (Raise e, w1)
       end.
Proof.
  split; [repeat split; vm_compute; reflexivity|].
  apply (seed_without_https_aborts (R := ascii_runtime) [] []
           (lit "http://x.yupoo.com/albums")
           [[lit "URL"]; [lit "http://x.yupoo.com/albums"]]);
    vm_compute; reflexivity.
Defined.

(** C10 on an album whose first request gets no response. *)
Lemma album_folder_made_first_witness :
  lit "Images/c" <> []
  /\ exists w',
       download_images_from_album (R := ascii_runtime)
         (lit "https://x.yupoo.com/albums/1?uid=1") (lit "Spring/Summer")
         (lit "Images/c") (world_of_replies [])
       = (Ret tt, w')
       /\ trace w' =
            trace (world_of_replies []) ++
            [Makedirs (os_path_join (lit "Images/c")
                         (sanitize_folder_name (R := ascii_runtime) (lit "Spring/Summer")));
             Print (FetchingAlbum (lit "Spring/Summer"));
             Get (lit "https://x.yupoo.com/albums/1?uid=1"); Print FailedAlbum]
       /\ os_path_join (lit "Images/c")
            (sanitize_folder_name (R := ascii_runtime) (lit "Spring/Summer")) ∈ dirs w'
       /\ files w' = files (world_of_replies [])
       /\ dirs w' =
            dirs (world_of_replies [])
            ∪ list_to_set
                (ancestors (os_path_join (lit "Images/c")
                              (sanitize_folder_name (R := ascii_runtime)
                                 (lit "Spring/Summer"))))
       /\ (empty_dir w'
             (os_path_join (lit "Images/c")
                (sanitize_folder_name (R := ascii_runtime) (lit "Spring/Summer")))
           <-> empty_dir (world_of_replies [])
                 (os_path_join (lit "Images/c")
                    (sanitize_folder_name (R := ascii_runtime) (lit "Spring/Summer")))).
Proof.
  split; [discriminate|].
  apply (proj2 (album_folder_made_first (R := ascii_runtime)
                  (lit "https://x.yupoo.com/albums/1?uid=1") (lit "Spring/Summer")
                  (lit "Images/c") (world_of_replies []) ltac:(discriminate))).
  reflexivity.
Defined.

(** * Part IV: further properties of the script *)

(** ** Names that sanitizing leaves alone *)

Section MoreStringFacts.
Context {R : Runtime}.

Lemma rstrip_fixed i c : isspace c = false -> rstrip (i ++ [c]) = i ++ [c].
Proof.
  intros H. rewrite rstrip_app; simpl; rewrite H; [reflexivity|discriminate].
Qed.

Lemma strip_fixed x :
  (forall c r, x = c :: r -> isspace c = false) ->
  (forall i c, x = i ++ [c] -> isspace c = false) ->
  strip x = x.
Proof.
  intros Hhead Hlast. unfold strip.
  destruct x as [|c r]; [reflexivity|].
  rewrite lstrip_fixed by (eapply Hhead; reflexivity).
  destruct (exists_last (l := c :: r)) as (i & z & E); [discriminate|].
  rewrite E. apply rstrip_fixed. eapply Hlast. exact E.
Qed.

(** X1. Sanitizing leaves a name as it is exactly when the name is made
    of alphanumeric characters, spaces and underscores and neither begins
    nor ends with whitespace. *)
Theorem sanitize_fixed_points (x : str) :
  sanitize_folder_name x = x
  <-> (forall c, In c x -> isalnum c = true \/ c = SPACE \/ c = UNDERSCORE)
      /\ (forall c r, x = c :: r -> isspace c = false)
      /\ (forall i c, x = i ++ [c] -> isspace c = false).
Proof.
  split.
  - intros E. split; [|split].
    + intros c Hc. rewrite <- E in Hc. exact (sanitize_allowed x c Hc).
    + intros c r Hx. rewrite <- E in Hx. exact (strip_head _ c r Hx).
    + intros i c Hx. rewrite <- E in Hx. exact (strip_last _ i c Hx).
  - intros (Hall & Hhead & Hlast). unfold sanitize_folder_name.
    rewrite map_sanitize_fixed by exact Hall. now apply strip_fixed.
Qed.

End MoreStringFacts.

(** ** The origin of a seed *)

Lemma startswith_app a b : startswith a b = true -> a = b ++ drop (length b) a.
Proof.
  revert a. induction b as [|y b IH]; intros a; simpl; [reflexivity|].
  destruct a as [|x a]; [discriminate|].
  intros H. apply andb_true_iff in H as [Hx H]. apply N.eqb_eq in Hx. subst y.
  simpl. f_equal. now apply IH.
Qed.

Lemma startswith_prefix b rest : startswith (b ++ rest) b = true.
Proof.
  induction b as [|y b IH]; simpl; [now destruct rest|]. now rewrite N.eqb_refl.
Qed.

Lemma non_slash_prefix_split s :
  exists rest,
    s = non_slash_prefix s ++ rest
    /\ ~ In SLASH (non_slash_prefix s)
    /\ (rest = [] \/ exists r, rest = SLASH :: r).
Proof.
  induction s as [|c s (rest & E & Hno & Hrest)]; simpl.
  - exists []. auto.
  - destruct (N.eqb_spec c SLASH) as [->|Hc].
    + exists (SLASH :: s). split; [reflexivity|]. split; [auto|]. right. eauto.
    + exists rest. split; [simpl; now rewrite <- E|]. split; [|assumption].
      intros [H|H]; [congruence|contradiction].
Qed.

Lemma non_slash_prefix_app host rest :
  ~ In SLASH host -> (rest = [] \/ exists r, rest = SLASH :: r) ->
  non_slash_prefix (host ++ rest) = host.
Proof.
  intros Hno Hrest. induction host as [|c host IH]; simpl.
  - destruct Hrest as [->|[r ->]]; reflexivity.
  - destruct (N.eqb_spec c SLASH) as [->|_]; [destruct Hno; now left|].
    f_equal. apply IH. intros H. apply Hno. now right.
Qed.

(** X2. The origin taken from a seed is "https://" followed by the
    longest run of characters up to the first slash, which must not be
    empty; a seed of that shape always has an origin, and what follows the
    origin in the seed is empty or begins with a slash. *)
Theorem re_match_origin_shape (s : str) :
  (forall origin,
     re_match_origin s = Some origin ->
     exists host rest,
       origin = lit "https://" ++ host /\ s = origin ++ rest
       /\ host <> [] /\ ~ In SLASH host
       /\ (rest = [] \/ exists r, rest = SLASH :: r))
  /\ (forall host rest,
        s = lit "https://" ++ host ++ rest ->
        host <> [] -> ~ In SLASH host ->
        (rest = [] \/ exists r, rest = SLASH :: r) ->
        re_match_origin s = Some (lit "https://" ++ host)).
Proof.
  split.
  - intros origin. unfold re_match_origin.
    destruct (startswith s (lit "https://")) eqn:E; [|discriminate].
    apply startswith_app in E. change (length (lit "https://")) with 8%nat in E.
    destruct (non_slash_prefix_split (drop 8 s)) as (rest & Es & Hno & Hrest).
    remember (lit "https://") as scheme eqn:Hscheme.
    destruct (non_slash_prefix (drop 8 s)) as [|c host] eqn:Eh; [discriminate|].
    intros H. injection H as <-. exists (c :: host), rest.
    split; [reflexivity|]. split; [|split; [discriminate|split; assumption]].
    etransitivity; [exact E|]. rewrite Es. apply app_assoc.
  - intros host rest -> Hne Hno Hrest. unfold re_match_origin.
    rewrite startswith_prefix.
    change (drop 8 (lit "https://" ++ host ++ rest)) with (host ++ rest).
    rewrite non_slash_prefix_app by assumption.
    now destruct host.
Qed.

(** ** Titles and page counts *)

Section TitleFacts.
Context {R : Runtime}.

(** X3. Reading the category title never raises.  The title is the
    placeholder when the page has no breadcrumb or the breadcrumb has no
    titled category link; otherwise it is the title attribute of the first
    such link, stripped of surrounding whitespace. *)
Theorem get_category_title_cases (soup : node) :
  exists title,
    get_category_title soup = Ret title
    /\ ((forall n, In n (descendants soup) ->
           tag_matches (Strainer (lit "div")
                          (Some (lit "yupoo-crumbs categories__box-right-header")) []) n
           = false) ->
        title = lit "Unknown_Category")
    /\ (forall crumbs,
          find (Strainer (lit "div")
                  (Some (lit "yupoo-crumbs categories__box-right-header")) []) soup
          = Some crumbs ->
          ((forall n, In n (descendants crumbs) ->
              tag_matches (Strainer (lit "a") (Some (lit "yupoo-crumbs-span"))
                             [lit "title"]) n = false) ->
           title = lit "Unknown_Category")
          /\ (forall link,
                find (Strainer (lit "a") (Some (lit "yupoo-crumbs-span"))
                        [lit "title"]) crumbs = Some link ->
                exists text,
                  tag_get link (lit "title") = Some text /\ title = strip text)).
Proof.
  unfold get_category_title.
  destruct (find (Strainer (lit "div")
                    (Some (lit "yupoo-crumbs categories__box-right-header")) []) soup)
    as [crumbs|] eqn:Ec.
  - destruct (find (Strainer (lit "a") (Some (lit "yupoo-crumbs-span")) [lit "title"])
                crumbs) as [link|] eqn:El.
    + destruct (find_some _ _ _ El) as [_ Ml].
      destruct (tag_matches_attr _ _ (lit "title") Ml) as [text Ht]; [now left|].
      unfold tag_getitem. rewrite Ht. exists (strip text).
      split; [reflexivity|]. split.
      * intros Habs. apply find_none in Habs. congruence.
      * intros crumbs' [= <-]. split.
        -- intros Habs. apply find_none in Habs. congruence.
        -- intros link' Hl. rewrite El in Hl. injection Hl as <-. eauto.
    + exists (lit "Unknown_Category"). split; [reflexivity|]. split; [reflexivity|].
      intros crumbs' [= <-]. split; [reflexivity|]. intros link' Hl. congruence.
  - exists (lit "Unknown_Category"). split; [reflexivity|]. split; [reflexivity|].
    intros crumbs' Hc. discriminate.
Qed.

Lemma digits_then_ye_digits s ds :
  digits_then_ye s = Some ds -> Forall (fun c => is_digit c = true) ds.
Proof.
  intros H. destruct (digits_then_ye_sound s ds H) as (_ & _ & _ & Hall). exact Hall.
Qed.

Lemma re_search_total_digits s ds :
  re_search_total s = Some ds -> Forall (fun c => is_digit c = true) ds.
Proof.
  induction s as [|c s IH]; simpl; [discriminate|].
  destruct (c =? GONG); [|exact IH].
  destruct (digits_then_ye s) as [ds'|] eqn:E; [|exact IH].
  intros [= <-]. eapply digits_then_ye_digits. exact E.
Qed.

Lemma fold_digits ds n :
  Forall (fun c => is_digit c = true) ds ->
  exists m,
    fold_left
      (fun acc c =>
         match acc, digit_value c with
         | Ret n, Some v => Ret (10 * n + v)
         | _, _ => Raise ValueError
         end) ds (Ret n) = Ret m.
Proof.
  intros H. revert n. induction H as [|c ds Hc _ IH]; intros n; simpl; [eauto|].
  unfold is_digit in Hc. destruct (digit_value c) as [v|]; [apply IH|discriminate].
Qed.

Lemma int_of_digits_cases ds :
  Forall (fun c => is_digit c = true) ds ->
  (exists m, int_of_digits ds = Ret m)
  \/ (int_of_digits ds = Raise ValueError
      /\ exists limit, int_max_str_digits = Some limit /\ (limit < length ds)%nat).
Proof.
  intros H. unfold int_of_digits.
  destruct int_max_str_digits as [limit|].
  - destruct (Nat.ltb_spec limit (length ds)).
    + right. split; [reflexivity|]. eauto.
    + left. now apply fold_digits.
  - left. now apply fold_digits.
Qed.

Lemma get_total_pages_cases (soup : node) :
  (exists n, get_total_pages soup = Ret n)
  \/ (get_total_pages soup = Raise ValueError
      /\ exists limit, int_max_str_digits = Some limit).
Proof.
  unfold get_total_pages.
  destruct (find _ soup) as [form|]; [|left; eauto].
  destruct (find_string _ _ form) as [span|] eqn:Es; [|left; eauto].
  apply head_filter_some in Es as [_ Hm].
  unfold string_matches in Hm. destruct span as [s|name classes attrs contents];
    [discriminate|].
  apply andb_true_iff in Hm as [_ Hm].
  destruct (node_string (Tag name classes attrs contents)) as [text|];
    [|discriminate].
  destruct (re_search_total (strip text)) as [ds|] eqn:Ed; [|left; eauto].
  apply re_search_total_digits in Ed.
  destruct (int_of_digits_cases ds Ed) as [[m ->]|[-> (limit & Hl & _)]]; eauto.
Qed.

(** X4. Reading the page count gives a number or raises ValueError,
    nothing else; ValueError needs a limit on the digits of an integer
    conversion, so where conversions are unlimited a count is always
    given. *)
Theorem get_total_pages_outcomes (soup : node) :
  ((exists n, get_total_pages soup = Ret n)
   \/ (get_total_pages soup = Raise ValueError
       /\ exists limit, int_max_str_digits = Some limit))
  /\ (int_max_str_digits = None -> exists n, get_total_pages soup = Ret n).
Proof.
  pose proof (get_total_pages_cases soup) as H.
  split; [exact H|].
  intros Hnone. destruct H as [H|[_ [limit Hl]]]; [exact H|congruence].
Qed.

End TitleFacts.

(** ** A page count written and read back *)

Lemma str_of_int_nonempty n : str_of_int n <> [].
Proof.
  unfold str_of_int. intros H.
  assert (E : N.to_uint n = Decimal.Nil) by now apply digits_of_uint_inj.
  pose proof (DecimalN.Unsigned.of_to n) as Hn. rewrite E in Hn. simpl in Hn.
  subst n. discriminate E.
Qed.

Section CountFacts.
Context {R : Runtime}.
Hypothesis ascii_digit_value :
  forall c, ascii_digit c = true -> digit_value c = Some (c - 48).

Lemma ascii_is_digit ds :
  Forall (fun c => ascii_digit c = true) ds -> Forall (fun c => is_digit c = true) ds.
Proof.
  intros H. eapply List.Forall_impl; [|exact H]. intros c Hc. simpl in Hc.
  unfold is_digit. now rewrite ascii_digit_value.
Qed.

Lemma fold_uint_pos d p :
  fold_left
    (fun acc c =>
       match acc, digit_value c with
       | Ret n, Some v => Ret (10 * n + v)
       | _, _ => Raise ValueError
       end) (digits_of_uint d) (Ret (N.pos p))
  = Ret (N.pos (Pos.of_uint_acc d p)).
Proof.
  revert p. induction d; intros p; simpl; [reflexivity|..];
    rewrite ascii_digit_value by reflexivity;
    match goal with
    | |- fold_left _ _ (Ret ?x) = Ret (N.pos (Pos.of_uint_acc _ ?q)) =>
        replace x with (N.pos q) by (lia)
    end; apply IHd.
Qed.

Lemma fold_uint_zero d :
  fold_left
    (fun acc c =>
       match acc, digit_value c with
       | Ret n, Some v => Ret (10 * n + v)
       | _, _ => Raise ValueError
       end) (digits_of_uint d) (Ret 0)
  = Ret (Pos.of_uint d).
Proof.
  induction d; simpl; [reflexivity|..];
    rewrite ascii_digit_value by reflexivity; simpl;
    [exact IHd|apply fold_uint_pos..].
Qed.

(** [int] reads back what [str] has written, within the limit on digits. *)
Lemma int_of_str n :
  match int_max_str_digits with
  | Some limit => (length (str_of_int n) <= limit)%nat
  | None => True
  end ->
  int_of_digits (str_of_int n) = Ret n.
Proof.
  intros Hlimit. unfold int_of_digits.
  assert ((match int_max_str_digits with
           | Some limit => (limit <? length (str_of_int n))%nat
           | None => false
           end) = false) as ->.
  { destruct int_max_str_digits as [limit|]; [|reflexivity].
    apply Nat.ltb_ge. exact Hlimit. }
  unfold str_of_int. rewrite fold_uint_zero. f_equal.
  apply DecimalN.Unsigned.of_to.
Qed.

Lemma digits_then_ye_exact ds :
  ds <> [] -> Forall (fun c => is_digit c = true) ds ->
  digits_then_ye (ds ++ [YE]) = Some ds.
Proof.
  intros Hne Hall. induction Hall as [|c ds Hc Hall IH]; [contradiction|].
  simpl. rewrite Hc. destruct ds as [|d ds].
  - cbn [app digits_then_ye]. destruct (is_digit YE); now rewrite N.eqb_refl.
  - rewrite IH by discriminate. reflexivity.
Qed.

Lemma re_search_total_exact ds :
  ds <> [] -> Forall (fun c => is_digit c = true) ds ->
  re_search_total (GONG :: ds ++ [YE]) = Some ds.
Proof.
  intros Hne Hall. simpl. now rewrite digits_then_ye_exact.
Qed.

(** X5. A page count written as U+5171, the decimal digits of [n],
    U+9875 is read back as [n]: when that is the text of the first span
    with a marker under the first pagination form, the page has [n]
    pages. *)
Theorem get_total_pages_reads_count (soup form span : node) (n : N) :
  isspace GONG = false ->
  isspace YE = false ->
  match int_max_str_digits with
  | Some limit => (length (str_of_int n) <= limit)%nat
  | None => True
  end ->
  find (Strainer (lit "form") (Some (lit "pagination__jumpwrap")) []) soup = Some form ->
  find_string (lit "span") (fun s => found (re_search_total s)) form = Some span ->
  node_string span = Some (GONG :: str_of_int n ++ [YE]) ->
  get_total_pages soup = Ret n.
Proof.
  intros Hg Hy Hlimit Hform Hspan Htext.
  unfold get_total_pages. rewrite Hform, Hspan, Htext.
  assert (strip (GONG :: str_of_int n ++ [YE]) = GONG :: str_of_int n ++ [YE]) as ->.
  { unfold strip. rewrite lstrip_fixed by exact Hg.
    change (GONG :: str_of_int n ++ [YE]) with ((GONG :: str_of_int n) ++ [YE]).
    now apply rstrip_fixed. }
  rewrite re_search_total_exact.
  - now apply int_of_str.
  - apply str_of_int_nonempty.
  - apply ascii_is_digit, str_of_int_digits.
Qed.

End CountFacts.

(** ** What a download touches *)

Lemma frame_refl path w : frame path w w.
Proof. repeat split. Qed.

Lemma frame_trans path w1 w2 w3 : frame path w1 w2 -> frame path w2 w3 -> frame path w1 w3.
Proof.
  intros (Hf & Hd & Hi) (Hf' & Hd' & Hi'). split; [|split; congruence].
  intros q Hq. rewrite Hf' by assumption. now apply Hf.
Qed.

Lemma framed_ret {A} path (a : A) : framed path (ret a).
Proof. intros w. apply frame_refl. Qed.

Lemma framed_raise {A} path e : framed path (@raise A e).
Proof. intros w. apply frame_refl. Qed.

Lemma framed_bind {A B} path (m : M A) (k : A -> M B) :
  framed path m -> (forall a, framed path (k a)) -> framed path (bind m k).
Proof.
  intros Hm Hk w. unfold bind. specialize (Hm w).
  destruct (m w) as [[a|e] w1]; simpl in *; [|assumption].
  eapply frame_trans; [eassumption|apply Hk].
Qed.

Lemma framed_try {A} path (m : M A) caught handler :
  framed path m -> (forall e, framed path (handler e)) ->
  framed path (try_except m caught handler).
Proof.
  intros Hm Hh w. unfold try_except. specialize (Hm w).
  destruct (m w) as [[a|e] w1]; simpl in *; [assumption|].
  destruct (caught e); [|assumption].
  eapply frame_trans; [eassumption|apply Hh].
Qed.

Lemma framed_for {A} path (xs : list A) (body : A -> M unit) :
  (forall x, framed path (body x)) -> framed path (for_each xs body).
Proof.
  intros H. induction xs as [|x xs IH]; simpl.
  - apply framed_ret.
  - apply framed_bind; auto.
Qed.

Lemma framed_emit path e : framed path (emit e).
Proof. intros w. repeat split. Qed.

Lemma framed_get path url stream : framed path (session_get url stream).
Proof.
  intros w. unfold session_get.
  destruct (pending w) as [|[|r] rest]; try destruct (stream || complete r);
    repeat split.
Qed.

Lemma framed_status path r : framed path (raise_for_status r).
Proof.
  unfold raise_for_status.
  destruct (_ && _); [apply framed_raise|apply framed_ret].
Qed.

Lemma framed_open path : framed path (open_wb path).
Proof.
  intros w. split; [|split; reflexivity].
  intros q Hq. simpl. now rewrite lookup_insert_ne.
Qed.

Lemma framed_write path chunk : framed path (file_write path chunk).
Proof.
  intros w. split; [|split; reflexivity].
  intros q Hq. simpl. now rewrite lookup_alter_ne.
Qed.

Create HintDb framing.
#[local] Hint Resolve framed_ret framed_raise framed_emit framed_get
  framed_status framed_open framed_write : framing.

Ltac framing_step :=
  lazymatch goal with
  | |- framed _ (bind _ _) => apply framed_bind; [|intros ?]
  | |- framed _ (try_except _ _ _) => apply framed_try; [|intros ?]
  | |- framed _ (for_each _ _) => apply framed_for; intros ?
  | |- framed _ (if ?b then _ else _) => destruct b
  | |- framed _ _ => solve [auto with framing]
  end.

Lemma framed_download_attempts url path attempts :
  framed path (download_attempts url path attempts).
Proof.
  induction attempts as [|attempt rest IH]; simpl.
  - apply framed_emit.
  - unfold attempt_round, download_attempt, print, sleep.
    repeat framing_step.
Qed.

(** X6. However a download ends and whatever the network answers, it
    changes no file other than the one at its destination path, makes
    no directory and leaves the input table alone. *)
Theorem download_image_touches_one_file (image_url save_path : str) (w : world) :
  (forall q, q <> save_path ->
     files (snd (download_image (image_url, save_path) w)) !! q = files w !! q)
  /\ dirs (snd (download_image (image_url, save_path) w)) = dirs w
  /\ input_csv (snd (download_image (image_url, save_path) w)) = input_csv w.
Proof.
  exact (framed_download_attempts image_url save_path (range 0 3) w).
Qed.

Lemma write_chunks_content path cs w content :
  files w !! path = Some content ->
  files (snd (for_each cs (file_write path) w)) !! path = Some (content ++ concat cs).
Proof.
  revert w content. induction cs as [|c cs IH]; intros w content H; simpl.
  - now rewrite app_nil_r.
  - unfold bind. simpl. rewrite (IH _ (content ++ c)).
    + now rewrite <- app_assoc.
    + simpl. rewrite lookup_alter_eq, H. reflexivity.
Qed.

(** A round that succeeds replaces whatever was at the destination. *)
Lemma attempt_round_done_content url path attempt w r rest :
  pending w = Answer r :: rest ->
  error_status r = false -> complete r = true ->
  exists w',
    attempt_round url path attempt w = (Ret true, w')
    /\ files w' !! path = Some (concat (chunks r))
    /\ trace w' = trace w ++ [Get url; OpenWrite path; Print (Downloaded path)].
Proof.
  destruct w as [csv ds fs p t]. simpl. intros -> Hs Hc. unfold error_status in Hs.
  unfold attempt_round, try_except, download_attempt, bind, session_get,
    raise_for_status. simpl. rewrite Hs. simpl.
  match goal with
  | |- context [for_each ?cs ?f ?w0] =>
      pose proof (write_chunks_content path cs w0 []) as Hcontent;
      destruct (write_chunks path cs w0) as (w1 & E & Ht & _)
  end.
  rewrite E in *. simpl in Hcontent. rewrite Hc. simpl.
  eexists. split; [reflexivity|]. simpl. split.
  - apply Hcontent. apply lookup_insert_eq.
  - rewrite Ht. simpl. now rewrite <- !app_assoc.
Qed.

Lemma download_attempts_content url path attempts w k r :
  (k < length attempts)%nat ->
  (forall i, (i < k)%nat -> failing (reply_at w i) = true) ->
  reply_at w k = Answer r ->
  error_status r = false -> complete r = true ->
  exists w' t,
    download_attempts url path attempts w = (Ret tt, w')
    /\ files w' !! path = Some (concat (chunks r))
    /\ trace w' = trace w ++ t ++ [Print (Downloaded path)].
Proof.
  revert w k. induction attempts as [|attempt rest IH]; intros w k Hk Hfail Hr Hs Hc.
  - simpl in Hk. lia.
  - rewrite download_attempts_cons. destruct k as [|k].
    + unfold reply_at in Hr. destruct (pending w) as [|r0 p] eqn:Ep; [discriminate|].
      simpl in Hr. subst r0.
      destruct (attempt_round_done_content url path attempt w r p Ep Hs Hc)
        as (w' & -> & Hf & Ht).
      exists w', [Get url; OpenWrite path]. repeat split; assumption.
    + destruct (attempt_round_failing url path attempt w) as (w1 & t1 & -> & Ht1 & _ & Hp1).
      { apply Hfail. lia. }
      destruct (IH w1 k) as (w' & t & -> & Hf & Ht); try assumption.
      * simpl in Hk. lia.
      * intros i Hi. rewrite (reply_at_next w w1) by assumption. apply Hfail. lia.
      * now rewrite (reply_at_next w w1).
      * exists w', (t1 ++ t). split; [reflexivity|]. split; [assumption|].
        rewrite Ht, Ht1. now rewrite <- !app_assoc.
Qed.

(** X7. For a URL with a scheme and a destination whose folder exists:
    when an attempt succeeds, after none, one or two failed ones, the
    file at the destination path holds exactly the body of that answer;
    what was there before, and what a failed attempt had written, is
    replaced; the download is reported last. *)
Theorem download_image_stores_body (image_url save_path : str) (w : world)
    (k : nat) (r : response) :
  has_scheme image_url = true ->
  folder_made w save_path ->
  (k < 3)%nat ->
  (forall i, (i < k)%nat -> failing (reply_at w i) = true) ->
  reply_at w k = Answer r ->
  error_status r = false ->
  complete r = true ->
  exists w' t,
    download_image (image_url, save_path) w = (Ret tt, w')
    /\ files w' !! save_path = Some (concat (chunks r))
    /\ trace w' = trace w ++ t ++ [Print (Downloaded save_path)].
Proof.
  intros _ _ Hk Hfail Hr Hs Hc. unfold download_image.
  now apply (download_attempts_content image_url save_path (range 0 3) w k r).
Qed.

(** ** Failures that stay where they happen *)

Lemma returns_ret {A} (a : A) : returns (ret a).
Proof. intros w. eexists _, _. reflexivity. Qed.

Lemma returns_emit e : returns (emit e).
Proof. intros w. eexists _, _. reflexivity. Qed.

Lemma returns_bind {A B} (m : M A) (k : A -> M B) :
  returns m -> (forall a, returns (k a)) -> returns (bind m k).
Proof.
  intros Hm Hk w. destruct (Hm w) as (a & w1 & E).
  destruct (Hk a w1) as (b & w2 & E'). exists b, w2.
  unfold bind. now rewrite E.
Qed.

Lemma returns_for {A} (xs : list A) (body : A -> M unit) :
  (forall x, returns (body x)) -> returns (for_each xs body).
Proof.
  intros H. induction xs as [|x xs IH]; simpl.
  - apply returns_ret.
  - apply returns_bind; auto.
Qed.

Lemma returns_future {A} (m : M A) : returns (in_future m).
Proof. intros w. eexists _, _. reflexivity. Qed.

Lemma returns_try_get url failure : returns (try_get url failure).
Proof.
  intros w. destruct (try_get_spec url failure w) as (fetched & w1 & E & _). eauto.
Qed.

Section IsolationFacts.
Context {R : Runtime}.

Lemma returns_image_cards folder page cards acc :
  returns (image_cards_loop folder page cards acc).
Proof.
  intros w. destruct (image_cards_loop_paths folder page cards acc w) as (l & w' & E & _).
  eauto.
Qed.

Lemma returns_album_page link album_title album_folder page :
  returns (album_page link album_title album_folder page).
Proof.
  unfold album_page, print.
  apply returns_bind; [apply returns_emit|intros _].
  apply returns_bind; [apply returns_try_get|intros [response|]];
    [|apply returns_ret].
  destruct (find_all _ (html response)); [apply returns_emit|].
  apply returns_bind; [apply returns_image_cards|intros image_details].
  apply returns_bind; [apply returns_emit|intros _].
  apply returns_for. intros item. apply returns_future.
Qed.

(** X8. Nothing that fails on a page of an album makes the page raise:
    a page that cannot be fetched, a page without cards, a card without
    image or title and a download that fails, whose exception stays in
    its future, are all passed over.  So the loop over the pages of an
    album, whatever the pages, goes through to its end. *)
Theorem album_page_failures_are_absorbed (link album_title album_folder : str)
    (pages : list N) (w : world) :
  (forall page u,
     exists u', album_page link album_title album_folder page u = (Ret tt, u'))
  /\ exists w',
       for_each pages (album_page link album_title album_folder) w = (Ret tt, w').
Proof.
  split.
  - intros page u.
    destruct (returns_album_page link album_title album_folder page u) as ([] & u' & E).
    eauto.
  - destruct (returns_for pages (album_page link album_title album_folder)
                (returns_album_page link album_title album_folder) w) as ([] & w' & E).
    eauto.
Qed.

End IsolationFacts.

(** ** Pages requested one after the other *)

Lemma range_from_one n : range 1 (n + 1) = List.map N.of_nat (seq 1 (N.to_nat n)).
Proof.
  unfold range. f_equal. f_equal. lia.
Qed.

Lemma logged_nil w : logged w [] = w.
Proof. destruct w. unfold logged. simpl. now rewrite app_nil_r. Qed.

Lemma logged_logged w t t' : logged (logged w t) t' = logged w (t ++ t').
Proof. unfold logged. simpl. now rewrite app_assoc. Qed.

Lemma emit_logged e w : emit e w = (Ret tt, logged w [e]).
Proof. reflexivity. Qed.

(** With the network down, a GET is reported as failed and nothing else
    happens. *)
Lemma try_get_down url failure w :
  pending w = [] ->
  try_get url failure w = (Ret None, logged w [Get url; Print failure]).
Proof.
  destruct w as [csv ds fs p t]. simpl. intros ->.
  unfold try_get, try_except, bind, session_get, print, emit, ret, logged. simpl.
  now rewrite <- app_assoc.
Qed.

Lemma for_each_down {A} (xs : list A) (body : A -> M unit) (shown : A -> list event) w :
  pending w = [] ->
  (forall x, In x xs ->
     forall u, pending u = [] -> body x u = (Ret tt, logged u (shown x))) ->
  for_each xs body w = (Ret tt, logged w (flat_map shown xs)).
Proof.
  intros Hw Hbody. revert w Hw. induction xs as [|x xs IH]; intros w Hw; simpl.
  - now rewrite logged_nil.
  - erewrite bind_ret by (apply Hbody; [now left|exact Hw]).
    rewrite IH; [now rewrite logged_logged|..].
    + intros y Hy. apply Hbody. now right.
    + exact Hw.
Qed.

(** What a computation never shows: the rules, one for each way of
    putting computations together. *)
Lemma silent_ret f {A} (a : A) : silent f (ret a).
Proof. intros w. exists []. split; [simpl; now rewrite app_nil_r|constructor]. Qed.

Lemma silent_raise f {A} e : silent f (@raise A e).
Proof. intros w. exists []. split; [simpl; now rewrite app_nil_r|constructor]. Qed.

Lemma silent_lift f {A} (o : outcome A) : silent f (lift o).
Proof. intros w. exists []. split; [simpl; now rewrite app_nil_r|constructor]. Qed.

Lemma silent_bind f {A B} (m : M A) (k : A -> M B) :
  silent f m -> (forall a, silent f (k a)) -> silent f (bind m k).
Proof.
  intros Hm Hk w. unfold bind. destruct (Hm w) as (t & Ht & Hf).
  destruct (m w) as [[a|e] w1]; simpl in *; [|eauto].
  destruct (Hk a w1) as (t' & Ht' & Hf'). exists (t ++ t'). split.
  - rewrite Ht', Ht. now rewrite <- app_assoc.
  - apply List.Forall_app. now split.
Qed.

Lemma silent_try f {A} (m : M A) caught handler :
  silent f m -> (forall e, silent f (handler e)) -> silent f (try_except m caught handler).
Proof.
  intros Hm Hh w. unfold try_except. destruct (Hm w) as (t & Ht & Hf).
  destruct (m w) as [[a|e] w1]; simpl in *; [eauto|].
  destruct (caught e); [|eauto].
  destruct (Hh e w1) as (t' & Ht' & Hf'). exists (t ++ t'). split.
  - rewrite Ht', Ht. now rewrite <- app_assoc.
  - apply List.Forall_app. now split.
Qed.

Lemma silent_for f {A} (xs : list A) (body : A -> M unit) :
  (forall x, silent f (body x)) -> silent f (for_each xs body).
Proof.
  intros H. induction xs as [|x xs IH]; simpl.
  - apply silent_ret.
  - apply silent_bind; auto.
Qed.

Lemma silent_future f {A} (m : M A) : silent f m -> silent f (in_future m).
Proof. intros H w. exact (H w). Qed.

Lemma silent_emit f e : f e = false -> silent f (emit e).
Proof. intros H w. exists [e]. split; [reflexivity|]. now constructor. Qed.

Lemma silent_get f url stream : f (Get url) = false -> silent f (session_get url stream).
Proof.
  intros H w. exists [Get url]. split; [|now constructor].
  unfold session_get.
  destruct (pending w) as [|[|r] rest]; try destruct (stream || complete r); reflexivity.
Qed.

Lemma silent_status f r : silent f (raise_for_status r).
Proof.
  unfold raise_for_status.
  destruct (_ && _); [apply silent_raise|apply silent_ret].
Qed.

Lemma silent_open f path : f (OpenWrite path) = false -> silent f (open_wb path).
Proof. intros H w. exists [OpenWrite path]. split; [reflexivity|]. now constructor. Qed.

Lemma silent_write f path chunk : silent f (file_write path chunk).
Proof. intros w. exists []. split; [simpl; now rewrite app_nil_r|constructor]. Qed.

Lemma silent_makedirs f path : f (Makedirs path) = false -> silent f (makedirs path).
Proof. intros H w. exists [Makedirs path]. split; [reflexivity|]. now constructor. Qed.

(** An event that starts no page is not singled out by [f], when [f]
    singles out starts of pages only. *)
Ltac quiet :=
  first
    [ reflexivity
    | assumption
    | lazymatch goal with
      | H : forall e, ?f e = true -> _ |- ?f ?e = false =>
          let E := fresh "E" in
          let E' := fresh "E" in
          destruct (f e) eqn:E;
          [destruct (H _ E) as [E'|E']; cbn in E'; discriminate E'|reflexivity]
      end ].

Ltac silent_step :=
  lazymatch goal with
  | |- silent _ (bind _ _) => apply silent_bind; [|intros ?]
  | |- silent _ (try_except _ _ _) => apply silent_try; [|intros ?]
  | |- silent _ (for_each _ _) => apply silent_for; intros ?
  | |- silent _ (in_future _) => apply silent_future
  | |- silent _ (if ?b then _ else _) => destruct b
  | |- silent _ (ret _) => apply silent_ret
  | |- silent _ (raise _) => apply silent_raise
  | |- silent _ (lift _) => apply silent_lift
  | |- silent _ (emit _) => apply silent_emit; quiet
  | |- silent _ (session_get _ _) => apply silent_get; quiet
  | |- silent _ (raise_for_status _) => apply silent_status
  | |- silent _ (open_wb _) => apply silent_open; quiet
  | |- silent _ (file_write _ _) => apply silent_write
  | |- silent _ (makedirs _) => apply silent_makedirs; quiet
  end.

Lemma silent_try_get f url failure :
  f (Get url) = false -> f (Print failure) = false -> silent f (try_get url failure).
Proof.
  intros Hget Hprint. unfold try_get, print. repeat silent_step.
Qed.

(** A loop whose every round shows [head x] first and then nothing that
    [f] singles out: the rounds that were begun are the first of the
    list, in its order, and all of it when the loop was not left. *)
Lemma for_each_visits {A} (f : event -> bool) (head : A -> list event)
    (body : A -> M unit) (xs : list A) (w : world) :
  (forall x u, exists t,
     trace (snd (body x u)) = trace u ++ head x ++ t
     /\ Forall (fun e => f e = false) t) ->
  exists (visits : list (A * list event)) (later : list A),
    xs = List.map fst visits ++ later
    /\ (fst (for_each xs body w) = Ret tt -> later = [])
    /\ Forall (fun v => Forall (fun e => f e = false) (snd v)) visits
    /\ trace (snd (for_each xs body w))
       = trace w ++ flat_map (fun v => head (fst v) ++ snd v) visits.
Proof.
  intros Hbody. revert w. induction xs as [|x xs IH]; intros w.
  - exists [], []. simpl. rewrite app_nil_r. repeat split. constructor.
  - destruct (Hbody x w) as (t & Ht & Hf). simpl. unfold bind.
    destruct (body x w) as [[[]|e] w1]; simpl in Ht.
    + destruct (IH w1) as (visits & later & Hxs & Hdone & Hsilent & Htrace).
      exists ((x, t) :: visits), later. simpl. repeat split.
      * now rewrite Hxs.
      * exact Hdone.
      * now constructor.
      * rewrite Htrace, Ht. now rewrite <- !app_assoc.
    + exists [(x, t)], xs. simpl. repeat split.
      * discriminate.
      * repeat constructor. exact Hf.
      * rewrite Ht, app_nil_r. reflexivity.
Qed.

Section PaginationFacts.
Context {R : Runtime}.

Section Silence.
Variable f : event -> bool.
Hypothesis f_pages :
  forall e, f e = true -> starts_album_page e = true \/ starts_category_page e = true.

Lemma silent_download_attempts url path attempts :
  silent f (download_attempts url path attempts).
Proof.
  induction attempts as [|attempt rest IH]; simpl.
  - unfold print. silent_step.
  - unfold attempt_round, download_attempt, print, sleep.
    repeat silent_step; exact IH.
Qed.

Lemma silent_download_image item : silent f (download_image item).
Proof. destruct item as [url path]. apply silent_download_attempts. Qed.

Lemma silent_image_card folder page card acc :
  silent f (image_card folder page card acc).
Proof.
  unfold image_card.
  destruct (find (Strainer (lit "img") None [lit "data-origin-src"]) card);
    [|apply silent_ret].
  destruct (find (Strainer (lit "h3") None [lit "title"]) card); [|apply silent_ret].
  unfold print. repeat silent_step.
Qed.

Lemma silent_image_cards_loop folder page cards acc :
  silent f (image_cards_loop folder page cards acc).
Proof.
  revert acc. induction cards as [|card cards IH]; intros acc; simpl.
  - apply silent_ret.
  - apply silent_bind; [apply silent_image_card|intros details; apply IH].
Qed.

(** One page of an album: it is announced and requested, and nothing
    that follows starts a page. *)
Lemma album_page_shown link album_title album_folder page w :
  exists t,
    trace (snd (album_page link album_title album_folder page w))
    = trace w
      ++ [Print (FetchingAlbumPage album_title page);
          Get (link ++ lit "&page=" ++ str_of_int page)] ++ t
    /\ Forall (fun e => f e = false) t.
Proof.
  unfold album_page. erewrite bind_ret by reflexivity.
  match goal with
  | |- context [bind (try_get ?url ?failure) ?k ?w0] =>
      destruct (try_get_spec url failure w0)
        as (fetched & w1 & E & _ & _ & _ & _ & Hcase);
      rewrite (bind_ret _ k w0 fetched w1 E)
  end.
  destruct Hcase as [(_ & -> & Ht1)|(_ & (r & _ & ->) & Ht1)].
  - exists [Print (FailedAlbumPage page)]. split.
    + simpl in *. rewrite Ht1. now rewrite <- !app_assoc.
    + constructor; [quiet|constructor].
  - cbv beta iota zeta.
    match goal with
    | |- context [snd (?m w1)] =>
        assert (Hrest : silent f m)
    end.
    { destruct (find_all _ (html r)); unfold print, executor_map.
      - silent_step.
      - repeat silent_step;
          [apply silent_image_cards_loop|apply silent_download_image]. }
    destruct (Hrest w1) as (t & Ht & Hf). exists t. split; [|exact Hf].
    rewrite Ht, Ht1. simpl. now rewrite <- !app_assoc.
Qed.

End Silence.

(** X9. An album whose first request is answered and announces [n] pages
    is gone through page by page, whatever the network answers from then
    on: the events of the call, once the folder is made and the album
    fetched, are those of [n] visits, of the pages 1 to [n] in that
    order, and the closing message.  Each visit begins with the
    announcement of its page and the request of the link followed by
    "&page=" and the number of the page, and no page is announced in
    what follows of the visit: no page is left out, repeated or taken
    out of turn, also after a page that was answered. *)
Theorem album_requests_each_page (link album_title base_folder : str) (w : world)
    (r : response) (rest : list reply) (n : N) :
  pending w = Answer r :: rest ->
  error_status r = false ->
  complete r = true ->
  get_total_pages (html r) = Ret n ->
  exists w' (visits : list (N * list event)),
    download_images_from_album link album_title base_folder w = (Ret tt, w')
    /\ List.map fst visits = List.map N.of_nat (seq 1 (N.to_nat n))
    /\ Forall (fun v => Forall (fun e => starts_album_page e = false) (snd v)) visits
    /\ trace w' =
         trace w ++
         [Makedirs (os_path_join base_folder (sanitize_folder_name album_title));
          Print (FetchingAlbum album_title); Get link;
          Print (TotalPagesAlbum album_title n)]
         ++ flat_map (album_page_visit link album_title) visits
         ++ [Print (AlbumDone album_title)].
Proof.
  intros Hp Hs Hc Hn. unfold download_images_from_album.
  set (F := os_path_join base_folder (sanitize_folder_name album_title)).
  erewrite bind_ret by reflexivity. erewrite bind_ret by reflexivity.
  destruct (try_get_spec link FailedAlbum
              (snd (print (FetchingAlbum album_title) (snd (makedirs F w)))))
    as (fetched & w1 & E & _ & _ & _ & _ & Hcase).
  erewrite bind_ret by exact E.
  destruct Hcase as [(Hfail & _)|(_ & (r' & Hr' & ->) & Ht1)].
  { unfold reply_at in Hfail. simpl in Hfail. rewrite Hp in Hfail.
    cbn [nth failing] in Hfail. rewrite Hs, Hc in Hfail. discriminate. }
  unfold reply_at in Hr'. simpl in Hr'. rewrite Hp in Hr'. injection Hr' as <-.
  rewrite Hn. erewrite bind_ret by reflexivity. erewrite bind_ret by reflexivity.
  rewrite range_from_one.
  set (w2 := snd (print (TotalPagesAlbum album_title n) w1)).
  destruct (for_each_visits starts_album_page
              (fun page => [Print (FetchingAlbumPage album_title page);
                            Get (link ++ lit "&page=" ++ str_of_int page)])
              (album_page link album_title F)
              (List.map N.of_nat (seq 1 (N.to_nat n))) w2)
    as (visits & later & Hxs & Hdone & Hsilent & Htrace).
  { intros page u. apply album_page_shown. intros e He. now left. }
  destruct (returns_for (List.map N.of_nat (seq 1 (N.to_nat n)))
              (album_page link album_title F)
              (returns_album_page link album_title F) w2) as ([] & w3 & E3).
  rewrite E3 in Hdone, Htrace. simpl in Hdone, Htrace.
  rewrite (Hdone eq_refl), app_nil_r in Hxs.
  erewrite bind_ret by exact E3.
  eexists _, visits. split; [reflexivity|]. split; [now symmetry|].
  split; [exact Hsilent|].
  simpl. rewrite Htrace. unfold w2. simpl. rewrite Ht1. simpl.
  rewrite <- !app_assoc. reflexivity.
Qed.

End PaginationFacts.

(** ** The column of seeds *)

Lemma fold_insert_keys_other {V} (v : V) (keys : list (list N)) (d : gmap (list N) V) key :
  ~ In key keys -> fold_left (fun d k => <[k := v]> d) keys d !! key = d !! key.
Proof.
  revert d. induction keys as [|k keys IH]; intros d Hin; simpl; [reflexivity|].
  rewrite IH by (intros H; apply Hin; now right).
  apply lookup_insert_ne. intros ->. apply Hin. now left.
Qed.

Lemma fold_insert_keys_member {V} (v : V) (keys : list (list N)) (d : gmap (list N) V) key :
  In key keys -> fold_left (fun d k => <[k := v]> d) keys d !! key = Some v.
Proof.
  revert d. induction keys as [|k keys IH]; intros d Hin; simpl; [contradiction|].
  destruct (List.in_dec (List.list_eq_dec N.eq_dec) key keys) as [Hk|Hk]; [now apply IH|].
  destruct Hin as [->|Hin]; [|contradiction].
  rewrite fold_insert_keys_other by assumption. apply lookup_insert_eq.
Qed.

Lemma fold_insert_pairs_other (kvs : list (list N * list N))
    (d : gmap (list N) (option (list N))) key :
  ~ In key (List.map fst kvs) ->
  fold_left (fun d kv => <[fst kv := Some (snd kv)]> d) kvs d !! key = d !! key.
Proof.
  revert d. induction kvs as [|kv kvs IH]; intros d Hin; simpl; [reflexivity|].
  rewrite IH by (intros H; apply Hin; now right).
  apply lookup_insert_ne. intros E. apply Hin. now left.
Qed.

Lemma fold_insert_pairs_member (kvs : list (list N * list N))
    (d : gmap (list N) (option (list N))) k v :
  List.NoDup (List.map fst kvs) -> In (k, v) kvs ->
  fold_left (fun d kv => <[fst kv := Some (snd kv)]> d) kvs d !! k = Some (Some v).
Proof.
  revert d. induction kvs as [|kv kvs IH]; intros d Hnd Hin; simpl; [contradiction|].
  simpl in Hnd. apply List.NoDup_cons_iff in Hnd as [Hfresh Hnd].
  destruct Hin as [->|Hin].
  - rewrite fold_insert_pairs_other by exact Hfresh. apply lookup_insert_eq.
  - now apply IH.
Qed.

Lemma NoDup_fst_combine {A B} (l : list A) (l' : list B) :
  List.NoDup l -> List.NoDup (List.map fst (combine l l')).
Proof.
  intros H. revert l'. induction H as [|x l Hx Hl IH]; intros l'; [constructor|].
  destruct l' as [|y l']; [constructor|]. simpl. constructor; [|apply IH].
  intros Hin. apply Hx. eapply In_fst_combine. exact Hin.
Qed.

Lemma In_combine_nth {A B} (l : list A) (l' : list B) i x y :
  nth_error l i = Some x -> nth_error l' i = Some y -> In (x, y) (combine l l').
Proof.
  revert l l'. induction i as [|i IH]; intros [|a l] [|b l']; simpl; try discriminate.
  - intros [= ->] [= ->]. now left.
  - intros Hx Hy. right. now apply IH.
Qed.

Lemma short_row_not_combined {A B} (l : list A) (l' : list B) i x :
  List.NoDup l -> nth_error l i = Some x -> nth_error l' i = None ->
  ~ In x (List.map fst (combine l l')).
Proof.
  intros H. revert l' i. induction H as [|a l Ha Hl IH]; intros l' i Hx Hnone.
  - now destruct i.
  - destruct l' as [|b l']; [intros []|]. destruct i as [|i]; [discriminate|].
    simpl in *. intros [->|Hin].
    + apply Ha. eapply nth_error_In. exact Hx.
    + exact (IH l' i Hx Hnone Hin).
Qed.

Lemma short_row_dropped {A B} (l : list A) (l' : list B) i x :
  nth_error l i = Some x -> nth_error l' i = None -> In x (drop (length l') l).
Proof.
  revert l l'. induction i as [|i IH]; intros [|a l] [|b l']; simpl; try discriminate.
  - intros [= ->] _. now left.
  - intros Hx _. right. eapply nth_error_In. exact Hx.
  - intros Hx Hnone. now apply IH.
Qed.

Lemma long_row_not_dropped {A B} (l : list A) (l' : list B) i x y :
  List.NoDup l -> nth_error l i = Some x -> nth_error l' i = Some y ->
  ~ In x (drop (length l') l).
Proof.
  intros H. revert l' i. induction H as [|a l Ha Hl IH]; intros l' i Hx Hy.
  - now destruct i.
  - destruct l' as [|b l']; [now destruct i|]. simpl.
    destruct i as [|i]; simpl in *.
    + injection Hx as ->. intros Hin. apply Ha. eapply In_drop. exact Hin.
    + now apply (IH l' i).
Qed.

(** Under distinct field names, the entry of a row for the [i]-th field
    is its [i]-th cell, and [None] when the row is too short. *)
Lemma row_dict_lookup fieldnames row i key :
  List.NoDup fieldnames -> nth_error fieldnames i = Some key ->
  row_dict fieldnames row !! key = Some (nth_error row i).
Proof.
  intros Hnd Hkey. unfold row_dict.
  destruct (nth_error row i) as [cell|] eqn:Ecell.
  - rewrite fold_insert_keys_other by (eapply long_row_not_dropped; eassumption).
    apply fold_insert_pairs_member; [now apply NoDup_fst_combine|].
    eapply In_combine_nth; eassumption.
  - apply fold_insert_keys_member. eapply short_row_dropped; eassumption.
Qed.

Section SeedFacts.
Context {R : Runtime}.

Lemma url_column_same (rows : list (gmap str (option str)))
    (cell : gmap str (option str) -> option str) :
  (forall row, In row rows -> row !! lit "URL" = Some (cell row)) ->
  url_column rows = Ret (List.map cell rows).
Proof.
  induction rows as [|row rows IH]; intros H; [reflexivity|].
  simpl. unfold dict_contains, dict_getitem. rewrite (H row) by now left.
  rewrite IH by (intros r Hr; apply H; now right). reflexivity.
Qed.

Lemma url_column_total (rows : list (gmap str (option str))) :
  exists links, url_column rows = Ret links.
Proof.
  induction rows as [|row rows [links IH]]; [eexists; reflexivity|].
  simpl. unfold dict_contains, dict_getitem.
  destruct (row !! lit "URL") as [url|]; rewrite IH; eauto.
Qed.

(** X10. With distinct column names of which the [i]-th is URL, the
    seeds are the [i]-th cells of the rows that are not empty, in the
    order of the table; a row too short to have that cell gives [None]
    in its place. *)
Theorem url_column_of_table (fieldnames : list str) (data : list (list str)) (i : nat) :
  List.NoDup fieldnames ->
  nth_error fieldnames i = Some (lit "URL") ->
  url_column (DictReader (fieldnames :: data))
  = Ret (List.map (fun row => nth_error row i)
           (List.filter (fun row => negb (bool_decide (row = []))) data)).
Proof.
  intros Hnd Hurl. simpl DictReader.
  rewrite (url_column_same _ (fun d => default None (d !! lit "URL"))).
  - f_equal. rewrite List.map_map. apply List.map_ext. intros row.
    now rewrite (row_dict_lookup fieldnames row i).
  - intros d Hd. apply in_map_iff in Hd as (row & <- & _).
    now rewrite (row_dict_lookup fieldnames row i).
Qed.

(** X11. What loading the seeds does with an input file that is missing
    and with one that is read as a table.  Without the file the run
    reports it and returns, having requested nothing.  Of a file read as
    a table, whatever its columns, a list of seeds is made without a
    message and without an exception: reading the column cannot raise
    [KeyError].  (A file that cannot be read or decoded is no table, and
    is outside this statement.) *)
Theorem load_links_cases (w : world) :
  (input_csv w = None ->
   load_links w = (Ret None, logged w [Print InputNotFound])
   /\ download_images_from_yupoo_main w = (Ret tt, logged w [Print InputNotFound]))
  /\ (forall table,
        input_csv w = Some table ->
        exists links, load_links w = (Ret (Some links), w)).
Proof.
  split.
  - intros Hnone.
    assert (E : load_links w = (Ret None, logged w [Print InputNotFound])).
    { unfold load_links, try_except, bind, open_input. now rewrite Hnone. }
    split; [exact E|].
    unfold download_images_from_yupoo_main. now erewrite bind_ret by exact E.
  - intros table Htable.
    destruct (url_column_total (DictReader table)) as [links Hlinks].
    exists links. eapply load_links_ok; eassumption.
Qed.

End SeedFacts.

(** ** Categories *)

Section CategoryFacts.
Context {R : Runtime}.

Lemma category_down url origin w :
  re_match_origin (strip url) = Some origin ->
  pending w = [] ->
  category (Some url) w = (Ret tt, logged w (failed_seed url)).
Proof.
  intros Ho Hw. unfold category.
  erewrite bind_ret by reflexivity. rewrite Ho.
  erewrite bind_ret by reflexivity. erewrite bind_ret by reflexivity.
  erewrite bind_ret by (apply try_get_down; exact Hw).
  unfold ret, print, emit, logged, failed_seed. simpl.
  now rewrite <- !app_assoc.
Qed.

Lemma flat_map_some {A B} (f : A -> list B) (xs : list A) :
  flat_map (fun o : option A => match o with Some x => f x | None => [] end)
    (List.map Some xs)
  = flat_map f xs.
Proof. induction xs as [|x xs IH]; simpl; [reflexivity|]. now rewrite IH. Qed.

(** X12. With the network down and seeds that all have an origin, every
    seed is requested once, in the order of the table, and reported as
    failed; none of them stops the run, which ends with its closing
    message, and no directory or file is made. *)
Theorem run_with_network_down (table : list (list str)) (urls : list str) (w : world) :
  input_csv w = Some table ->
  url_column (DictReader table) = Ret (List.map Some urls) ->
  pending w = [] ->
  (forall url, In url urls -> re_match_origin (strip url) <> None) ->
  download_images_from_yupoo_main w
  = (Ret tt, logged w (flat_map failed_seed urls ++ [Print AllDone])).
Proof.
  intros Htable Hcol Hw Hurls. unfold download_images_from_yupoo_main.
  erewrite bind_ret by (eapply load_links_ok; eassumption).
  cbv beta iota. erewrite bind_ret.
  2:{ apply (for_each_down _ _
               (fun o => match o with Some url => failed_seed url | None => [] end));
      [exact Hw|].
      intros o Ho u Hu. apply in_map_iff in Ho as (url & <- & Hurl).
      destruct (re_match_origin (strip url)) as [origin|] eqn:E;
        [|now destruct (Hurls url Hurl)].
      eapply category_down; eassumption. }
  rewrite flat_map_some. unfold print.
  now rewrite emit_logged, logged_logged.
Qed.

(** Nothing of an album starts a page of a category. *)
Lemma silent_album_page link album_title album_folder page :
  silent starts_category_page (album_page link album_title album_folder page).
Proof.
  intros w.
  destruct (album_page_shown starts_category_page (fun e He => or_intror He)
              link album_title album_folder page w) as (t & Ht & Hf).
  eexists. split; [exact Ht|].
  constructor; [reflexivity|]. constructor; [reflexivity|exact Hf].
Qed.

Lemma silent_album link album_title base_folder :
  silent starts_category_page (download_images_from_album link album_title base_folder).
Proof.
  unfold download_images_from_album, print. cbv zeta.
  do 2 (silent_step; [silent_step|]).
  apply silent_bind; [now apply silent_try_get|intros [response|]];
    [|apply silent_ret].
  repeat silent_step. apply silent_album_page.
Qed.

Lemma silent_album_card base_domain base_folder album :
  silent starts_category_page (album_card base_domain base_folder album).
Proof.
  unfold album_card. cbv zeta. silent_step; [silent_step|]. apply silent_album.
Qed.

(** One page of a category: it is announced and requested, and nothing
    that follows starts a page of a category. *)
Lemma category_page_shown base_url base_domain base_folder page w :
  exists t,
    trace (snd (category_page base_url base_domain base_folder page w))
    = trace w
      ++ [Print (ProcessingPage page);
          Get (base_url ++ lit "?page=" ++ str_of_int page)] ++ t
    /\ Forall (fun e => starts_category_page e = false) t.
Proof.
  unfold category_page. erewrite bind_ret by reflexivity. cbv zeta.
  match goal with
  | |- context [bind (try_get ?url ?failure) ?k ?w0] =>
      destruct (try_get_spec url failure w0)
        as (fetched & w1 & E & _ & _ & _ & _ & Hcase);
      rewrite (bind_ret _ k w0 fetched w1 E)
  end.
  destruct Hcase as [(_ & -> & Ht1)|(_ & (r & _ & ->) & Ht1)].
  - exists [Print (FailedPage page)]. split.
    + simpl in *. rewrite Ht1. now rewrite <- !app_assoc.
    + constructor; [reflexivity|constructor].
  - cbv beta iota zeta.
    match goal with
    | |- context [snd (?m w1)] =>
        assert (Hrest : silent starts_category_page m)
    end.
    { destruct (find_all _ (html r)); unfold print.
      - silent_step.
      - silent_step. apply silent_album_card. }
    destruct (Hrest w1) as (t & Ht & Hf). exists t. split; [|exact Hf].
    rewrite Ht, Ht1. simpl. now rewrite <- !app_assoc.
Qed.

(** X13. A seed whose first request is answered gets its folder, Images
    joined with the sanitized category title, only after that answer, and
    is then gone through page by page, whatever the network answers from
    then on: what follows is a sequence of visits, of the pages 1, 2, ...
    in that order.  Each visit begins with the announcement of its page
    and the request of the seed followed by "?page=" and the number of
    the page, and no page of the category is announced in what follows of
    the visit.  When the seed is done without an exception, the pages
    visited are all of 1 to [n]; with an exception, as of an album card
    without a link, they are the first of them. *)
Theorem category_requests_each_page (url origin category_title : str) (w : world)
    (r : response) (rest : list reply) (n : N) :
  re_match_origin (strip url) = Some origin ->
  pending w = Answer r :: rest ->
  error_status r = false ->
  complete r = true ->
  get_total_pages (html r) = Ret n ->
  get_category_title (html r) = Ret category_title ->
  exists o w' (visits : list (N * list event)) (later : list N),
    category (Some url) w = (o, w')
    /\ List.map N.of_nat (seq 1 (N.to_nat n)) = List.map fst visits ++ later
    /\ (o = Ret tt -> later = [])
    /\ Forall (fun v => Forall (fun e => starts_category_page e = false) (snd v)) visits
    /\ trace w' =
         trace w ++
         [Print (FetchingCategory (strip url)); Get (strip url);
          Print (TotalPagesCategory n);
          Makedirs (os_path_join (lit "Images") (sanitize_folder_name category_title))]
         ++ flat_map (category_page_visit (strip url)) visits.
Proof.
  intros Ho Hp Hs Hc Hn Ht. unfold category.
  erewrite bind_ret by reflexivity. rewrite Ho.
  erewrite bind_ret by reflexivity. erewrite bind_ret by reflexivity.
  destruct (try_get_spec (strip url) FailedCategory
              (snd (print (FetchingCategory (strip url)) w)))
    as (fetched & w1 & E & _ & _ & _ & _ & Hcase).
  erewrite bind_ret by exact E.
  destruct Hcase as [(Hfail & _)|(_ & (r' & Hr' & ->) & Ht1)].
  { unfold reply_at in Hfail. simpl in Hfail. rewrite Hp in Hfail.
    cbn [nth failing] in Hfail. rewrite Hs, Hc in Hfail. discriminate. }
  unfold reply_at in Hr'. simpl in Hr'. rewrite Hp in Hr'. injection Hr' as <-.
  cbv zeta. rewrite Hn. erewrite bind_ret by reflexivity.
  erewrite bind_ret by reflexivity. rewrite Ht.
  erewrite bind_ret by reflexivity. erewrite bind_ret by reflexivity.
  rewrite range_from_one.
  set (F := os_path_join (lit "Images") (sanitize_folder_name category_title)).
  set (w2 := snd (makedirs F (snd (print (TotalPagesCategory n) w1)))).
  destruct (for_each_visits starts_category_page
              (fun page => [Print (ProcessingPage page);
                            Get (strip url ++ lit "?page=" ++ str_of_int page)])
              (category_page (strip url) origin F)
              (List.map N.of_nat (seq 1 (N.to_nat n))) w2)
    as (visits & later & Hxs & Hdone & Hsilent & Htrace).
  { intros page u. apply category_page_shown. }
  match type of Htrace with
  | trace (snd ?x) = _ => exists (fst x), (snd x), visits, later
  end.
  split; [apply surjective_pairing|]. split; [exact Hxs|].
  split; [exact Hdone|]. split; [exact Hsilent|].
  rewrite Htrace. unfold w2. cbn [makedirs print emit snd trace]. rewrite Ht1.
  cbn [print emit snd trace]. rewrite <- !app_assoc. reflexivity.
Qed.

End CategoryFacts.

(** ** Album cards *)

Section AlbumCardFacts.
Context {R : Runtime}.

(** The first events of the work on an album, whatever the network. *)
Lemma album_first_events link album_title base_folder w :
  exists o w' t,
    download_images_from_album link album_title base_folder w = (o, w')
    /\ trace w' =
         trace w ++
         Makedirs (os_path_join base_folder (sanitize_folder_name album_title))
         :: Print (FetchingAlbum album_title) :: Get link :: t.
Proof.
  unfold download_images_from_album.
  set (F := os_path_join base_folder (sanitize_folder_name album_title)).
  erewrite bind_ret by reflexivity. erewrite bind_ret by reflexivity.
  destruct (try_get_spec link FailedAlbum
              (snd (print (FetchingAlbum album_title) (snd (makedirs F w)))))
    as (fetched & w1 & E & _ & _ & _ & _ & Hcase).
  erewrite bind_ret by exact E.
  destruct (progressive_album_rest link album_title F fetched w1) as [[t Ht] _].
  match goal with |- context [?m w1] => destruct (m w1) as [o w'] eqn:Erest end.
  cbn [snd] in Ht.
  destruct Hcase as [(_ & _ & Ht1)|(_ & _ & Ht1)].
  - exists o, w', (Print FailedAlbum :: t). split; [reflexivity|].
    rewrite Ht, Ht1. cbn. rewrite <- !app_assoc. reflexivity.
  - exists o, w', t. split; [reflexivity|].
    rewrite Ht, Ht1. cbn. rewrite <- !app_assoc. reflexivity.
Qed.

(** X14. An album card with a link is worked on under its title,
    stripped, or under "Untitled" when it has none; the album is
    requested at its link, with the origin of the seed put in front when
    the link starts with a slash and as it is otherwise. *)
Theorem album_card_resolves_link (base_domain base_folder href : str) (album : node)
    (w : world) :
  tag_get album (lit "href") = Some href ->
  exists o w' t,
    album_card base_domain base_folder album w = (o, w')
    /\ trace w' =
         trace w ++
         Makedirs
           (os_path_join base_folder
              (sanitize_folder_name
                 (strip (match tag_get album (lit "title") with
                         | Some title => title
                         | None => lit "Untitled"
                         end))))
         :: Print
              (FetchingAlbum
                 (strip (match tag_get album (lit "title") with
                         | Some title => title
                         | None => lit "Untitled"
                         end)))
         :: Get (if startswith href (lit "/") then base_domain ++ href else href)
         :: t.
Proof.
  intros Hhref. unfold album_card, tag_getitem. rewrite Hhref.
  erewrite bind_ret by reflexivity. apply album_first_events.
Qed.

Lemma album_card_without_link base_domain base_folder album w :
  tag_get album (lit "href") = None ->
  album_card base_domain base_folder album w = (Raise KeyError, w).
Proof.
  intros H. unfold album_card, tag_getitem. now rewrite H.
Qed.

(** X15. An album card without a link is not skipped: on a category page
    that was fetched, the cards before it are worked on, then KeyError is
    raised at that card, before any folder is made or anything is
    requested for it; the exception leaves the page, and the cards after
    it are never reached. *)
Theorem album_card_without_link_raises (base_url base_domain base_folder : str)
    (page : N) (w : world) (r : response) (rest : list reply)
    (before after : list node) (album : node) :
  pending w = Answer r :: rest ->
  error_status r = false ->
  complete r = true ->
  find_all (Strainer (lit "a") (Some (lit "album__main")) []) (html r)
  = before ++ album :: after ->
  tag_get album (lit "href") = None ->
  category_page base_url base_domain base_folder page w
  = match
      for_each before (album_card base_domain base_folder)
        {| input_csv := input_csv w; dirs := dirs w; files := files w;
           pending := rest;
           trace := trace w ++
                    [Print (ProcessingPage page);
                     Get (base_url ++ lit "?page=" ++ str_of_int page)] |}
    with
    | (Ret _, u) => (Raise KeyError, u)
    | (Raise e, u) => (Raise e, u)
    end.
Proof.
  intros Hp Hs Hc Halbums Hhref.
  destruct w as [csv ds fs p t]. simpl in Hp. subst p.
  unfold category_page. erewrite bind_ret by reflexivity.
  cbv zeta.
  assert (E : try_get (base_url ++ lit "?page=" ++ str_of_int page) (FailedPage page)
                (snd (print (ProcessingPage page)
                        {| input_csv := csv; dirs := ds; files := fs;
                           pending := Answer r :: rest; trace := t |}))
              = (Ret (Some r),
                 {| input_csv := csv; dirs := ds; files := fs; pending := rest;
                    trace := t ++ [Print (ProcessingPage page);
                                   Get (base_url ++ lit "?page=" ++ str_of_int page)] |})).
  { unfold try_get, try_except, bind, session_get, raise_for_status, print, emit, ret.
    simpl. rewrite Hc. unfold error_status in Hs. rewrite Hs. simpl.
    now rewrite <- app_assoc. }
  erewrite bind_ret by exact E. cbv beta iota. rewrite Halbums.
  destruct (before ++ album :: after) as [|a l] eqn:El; [now destruct before|].
  rewrite <- El. simpl trace.
  apply (for_each_raises before after album (album_card base_domain base_folder) KeyError).
  intros u. now apply album_card_without_link.
Qed.

End AlbumCardFacts.

(** ** Where the files go *)

Section LayoutFacts.
Context {R : Runtime}.
Hypothesis slash_not_alnum : isalnum SLASH = false.

Lemma sanitize_no_slash name : ~ In SLASH (sanitize_folder_name name).
Proof.
  intros H. apply sanitize_allowed in H as [H|[H|H]]; [congruence|discriminate..].
Qed.

Lemma os_path_join_below a name :
  ~ In SLASH name ->
  os_path_join a name
  = (if bool_decide (a = []) || endswith a [SLASH] then a else a ++ [SLASH]) ++ name.
Proof.
  intros H. unfold os_path_join.
  assert (startswith name [SLASH] = false) as ->.
  { destruct name as [|c name]; [reflexivity|]. apply startswith_cons_false.
    intros ->. apply H. now left. }
  destruct (bool_decide (a = []) || endswith a [SLASH]); [reflexivity|].
  now rewrite <- app_assoc.
Qed.

(** X16. No title can move a path out of its folder.  The album folder
    is the base folder, a separator unless the base folder ends with one,
    and a name without separator; the destination of an image is built
    in the same way from the album folder, its name being the sanitized
    page-prefixed title followed by ".jpg". *)
Theorem paths_stay_below (folder : str) :
  (forall album_title,
     os_path_join folder (sanitize_folder_name album_title)
     = (if bool_decide (folder = []) || endswith folder [SLASH]
        then folder else folder ++ [SLASH])
       ++ sanitize_folder_name album_title
     /\ ~ In SLASH (sanitize_folder_name album_title))
  /\ (forall page image_name,
        destination_path folder page image_name
        = (if bool_decide (folder = []) || endswith folder [SLASH]
           then folder else folder ++ [SLASH])
          ++ sanitize_folder_name (str_of_int page ++ lit "_" ++ image_name)
          ++ lit ".jpg"
        /\ ~ In SLASH
             (sanitize_folder_name (str_of_int page ++ lit "_" ++ image_name)
              ++ lit ".jpg")).
Proof.
  split.
  - intros album_title. split; [|apply sanitize_no_slash].
    apply os_path_join_below, sanitize_no_slash.
  - intros page image_name.
    assert (H : ~ In SLASH
                  (sanitize_folder_name (str_of_int page ++ lit "_" ++ image_name)
                   ++ lit ".jpg")).
    { intros H. apply in_app_or in H as [H|H].
      - now apply sanitize_no_slash in H.
      - vm_compute in H. intuition discriminate. }
    split; [|exact H]. unfold destination_path. cbv zeta.
    now apply os_path_join_below.
Qed.

End LayoutFacts.

(** ** The further properties on concrete runs *)

Lemma ascii_digit_values c :
  ascii_digit c = true -> @digit_value ascii_runtime c = Some (c - 48).
Proof. intros H. cbn. now rewrite H. Qed.

(** X5 on a page that shows 12 pages. *)
Lemma get_total_pages_reads_count_witness :
  get_total_pages (R := ascii_runtime) sample_numbered_page = Ret 12.
Proof.
  apply (get_total_pages_reads_count (R := ascii_runtime) ascii_digit_values
           sample_numbered_page
           (Tag (lit "form") [lit "pagination__jumpwrap"] []
              [Tag (lit "span") [] [] [NavigableString (GONG :: lit "12" ++ [YE])]])
           (Tag (lit "span") [] [] [NavigableString (GONG :: lit "12" ++ [YE])])
           12);
    try (vm_compute; reflexivity).
  vm_compute. lia.
Defined.

(** X7 on a download into a folder that exists, whose first attempt
    breaks after one chunk and whose second attempt brings two chunks. *)
Lemma download_image_stores_body_witness :
  folder_made
    (world_in_folder (lit "Images/c/a")
       [image_reply [[Byte.x01]] false; image_reply [[Byte.x02]; [Byte.x03]] true])
    (lit "Images/c/a/1_A.jpg")
  /\ exists w' t,
       download_image (lit "https://photo.example.com/1.jpg", lit "Images/c/a/1_A.jpg")
         (world_in_folder (lit "Images/c/a")
            [image_reply [[Byte.x01]] false; image_reply [[Byte.x02]; [Byte.x03]] true])
       = (Ret tt, w')
       /\ files w' !! lit "Images/c/a/1_A.jpg" = Some [Byte.x02; Byte.x03]
       /\ trace w' =
            trace (world_in_folder (lit "Images/c/a")
                     [image_reply [[Byte.x01]] false;
                      image_reply [[Byte.x02]; [Byte.x03]] true])
            ++ t ++ [Print (Downloaded (lit "Images/c/a/1_A.jpg"))].
Proof.
  assert (Hfolder :
    folder_made
      (world_in_folder (lit "Images/c/a")
         [image_reply [[Byte.x01]] false; image_reply [[Byte.x02]; [Byte.x03]] true])
      (lit "Images/c/a/1_A.jpg")).
  { exists (lit "Images/c/a"), (lit "1_A.jpg").
    split; [reflexivity|]. split; [discriminate|].
    split; [vm_compute; intuition discriminate|]. split.
    - apply elem_of_list_to_set, list_elem_of_In. vm_compute. auto.
    - unfold world_in_folder. cbn [dirs].
      rewrite elem_of_list_to_set, list_elem_of_In. vm_compute. intuition discriminate. }
  split; [exact Hfolder|].
  apply (download_image_stores_body
           (lit "https://photo.example.com/1.jpg") (lit "Images/c/a/1_A.jpg")
           (world_in_folder (lit "Images/c/a")
              [image_reply [[Byte.x01]] false; image_reply [[Byte.x02]; [Byte.x03]] true])
           1
           {| status := 200; html := NavigableString [];
              chunks := [[Byte.x02]; [Byte.x03]]; complete := true |});
    try reflexivity.
  - exact Hfolder.
  - lia.
  - intros [|i] Hi; [reflexivity|lia].
Defined.

(** X9 on an album of 12 pages of which the first is answered, with two
    cards, and the others are not. *)
Lemma album_requests_each_page_witness :
  exists w' (visits : list (N * list event)),
    download_images_from_album (R := ascii_runtime)
      (lit "https://x.yupoo.com/albums/1?uid=1") (lit "Spring/Summer") (lit "Images/c")
      (world_of_replies [page_reply sample_numbered_page; page_reply sample_album_page])
    = (Ret tt, w')
    /\ List.map fst visits = List.map N.of_nat (seq 1 (N.to_nat 12))
    /\ Forall (fun v => Forall (fun e => starts_album_page e = false) (snd v)) visits
    /\ trace w' =
         trace (world_of_replies
                  [page_reply sample_numbered_page; page_reply sample_album_page]) ++
         [Makedirs (os_path_join (lit "Images/c")
                      (sanitize_folder_name (R := ascii_runtime) (lit "Spring/Summer")));
          Print (FetchingAlbum (lit "Spring/Summer"));
          Get (lit "https://x.yupoo.com/albums/1?uid=1");
          Print (TotalPagesAlbum (lit "Spring/Summer") 12)]
         ++ flat_map
              (album_page_visit (lit "https://x.yupoo.com/albums/1?uid=1")
                 (lit "Spring/Summer"))
              visits
         ++ [Print (AlbumDone (lit "Spring/Summer"))].
Proof.
  apply (album_requests_each_page (R := ascii_runtime)
           (lit "https://x.yupoo.com/albums/1?uid=1") (lit "Spring/Summer")
           (lit "Images/c")
           (world_of_replies [page_reply sample_numbered_page; page_reply sample_album_page])
           {| status := 200; html := sample_numbered_page; chunks := [];
              complete := true |}
           [page_reply sample_album_page] 12);
    vm_compute; reflexivity.
Defined.

(** X10 on a table with the columns Name and URL, an empty line and a
    short row. *)
Lemma url_column_of_table_witness :
  url_column
    (DictReader
       ([lit "Name"; lit "URL"]
        :: [[lit "a"; lit "https://x.yupoo.com/albums"]; []; [lit "b"]]))
  = Ret (List.map (fun row => nth_error row 1)
           (List.filter (fun row => negb (bool_decide (row = [])))
              [[lit "a"; lit "https://x.yupoo.com/albums"]; []; [lit "b"]])).
Proof.
  apply (url_column_of_table [lit "Name"; lit "URL"]
           [[lit "a"; lit "https://x.yupoo.com/albums"]; []; [lit "b"]] 1).
  - constructor; [|constructor; [intros []|constructor]].
    intros [H|[]]. vm_compute in H. discriminate H.
  - reflexivity.
Defined.

(** X12 on a table of two seeds. *)
Lemma run_with_network_down_witness :
  download_images_from_yupoo_main (R := ascii_runtime)
    (world_of_table
       [[lit "URL"]; [lit "https://x.yupoo.com/albums"];
        [lit " https://y.yupoo.com/categories/7 "]])
  = (Ret tt,
     logged
       (world_of_table
          [[lit "URL"]; [lit "https://x.yupoo.com/albums"];
           [lit " https://y.yupoo.com/categories/7 "]])
       (flat_map (failed_seed (R := ascii_runtime))
          [lit "https://x.yupoo.com/albums"; lit " https://y.yupoo.com/categories/7 "]
        ++ [Print AllDone])).
Proof.
  apply (run_with_network_down (R := ascii_runtime)
           [[lit "URL"]; [lit "https://x.yupoo.com/albums"];
            [lit " https://y.yupoo.com/categories/7 "]]
           [lit "https://x.yupoo.com/albums"; lit " https://y.yupoo.com/categories/7 "]);
    try (vm_compute; reflexivity).
  intros url [<-|[<-|[]]]; vm_compute; discriminate.
Defined.

(** X13 on a seed of one page, answered with one album whose own request
    gets no response. *)
Lemma category_requests_each_page_witness :
  exists o w' (visits : list (N * list event)) (later : list N),
    category (R := ascii_runtime) (Some (lit " https://x.yupoo.com/albums"))
      (world_of_replies [page_reply sample_category_page; page_reply sample_category_page])
    = (o, w')
    /\ List.map N.of_nat (seq 1 (N.to_nat 1)) = List.map fst visits ++ later
    /\ (o = Ret tt -> later = [])
    /\ Forall (fun v => Forall (fun e => starts_category_page e = false) (snd v)) visits
    /\ trace w' =
         trace (world_of_replies
                  [page_reply sample_category_page; page_reply sample_category_page]) ++
         [Print (FetchingCategory
                   (strip (R := ascii_runtime) (lit " https://x.yupoo.com/albums")));
          Get (strip (R := ascii_runtime) (lit " https://x.yupoo.com/albums"));
          Print (TotalPagesCategory 1);
          Makedirs (os_path_join (lit "Images")
                      (sanitize_folder_name (R := ascii_runtime) (lit "Bags & Shoes")))]
         ++ flat_map
              (category_page_visit
                 (strip (R := ascii_runtime) (lit " https://x.yupoo.com/albums")))
              visits.
Proof.
  apply (category_requests_each_page (R := ascii_runtime)
           (lit " https://x.yupoo.com/albums") (lit "https://x.yupoo.com")
           (lit "Bags & Shoes")
           (world_of_replies
              [page_reply sample_category_page; page_reply sample_category_page])
           {| status := 200; html := sample_category_page; chunks := [];
              complete := true |}
           [page_reply sample_category_page] 1);
    vm_compute; reflexivity.
Defined.

(** X14 on an album card with a link relative to the origin. *)
Lemma album_card_resolves_link_witness :
  exists o w' t,
    album_card (R := ascii_runtime) (lit "https://x.yupoo.com") (lit "Images/c")
      (Tag (lit "a") [lit "album__main"]
         [(lit "title", lit "Spring/Summer"); (lit "href", lit "/albums/1?uid=1")] [])
      (world_of_replies [])
    = (o, w')
    /\ trace w' =
         trace (world_of_replies []) ++
         Makedirs
           (os_path_join (lit "Images/c")
              (sanitize_folder_name (R := ascii_runtime)
                 (strip (R := ascii_runtime)
                    (match
                       tag_get
                         (Tag (lit "a") [lit "album__main"]
                            [(lit "title", lit "Spring/Summer");
                             (lit "href", lit "/albums/1?uid=1")] [])
                         (lit "title")
                     with
                     | Some title => title
                     | None => lit "Untitled"
                     end))))
         :: Print
              (FetchingAlbum
                 (strip (R := ascii_runtime)
                    (match
                       tag_get
                         (Tag (lit "a") [lit "album__main"]
                            [(lit "title", lit "Spring/Summer");
                             (lit "href", lit "/albums/1?uid=1")] [])
                         (lit "title")
                     with
                     | Some title => title
                     | None => lit "Untitled"
                     end)))
         :: Get (if startswith (lit "/albums/1?uid=1") (lit "/")
                 then lit "https://x.yupoo.com" ++ lit "/albums/1?uid=1"
                 else lit "/albums/1?uid=1")
         :: t.
Proof.
  apply (album_card_resolves_link (R := ascii_runtime)).
  vm_compute. reflexivity.
Defined.

(** X15 on a category page whose only album card has no link. *)
Lemma album_card_without_link_raises_witness :
  category_page (R := ascii_runtime) (lit "https://x.yupoo.com/albums")
    (lit "https://x.yupoo.com") (lit "Images/c") 1
    (world_of_replies [page_reply sample_broken_category_page])
  = match
      for_each [] (album_card (R := ascii_runtime) (lit "https://x.yupoo.com")
                     (lit "Images/c"))
        {| input_csv := input_csv (world_of_replies [page_reply sample_broken_category_page]);
           dirs := dirs (world_of_replies [page_reply sample_broken_category_page]);
           files := files (world_of_replies [page_reply sample_broken_category_page]);
           pending := [];
           trace := trace (world_of_replies [page_reply sample_broken_category_page]) ++
                    [Print (ProcessingPage 1);
                     Get (lit "https://x.yupoo.com/albums" ++ lit "?page=" ++ str_of_int 1)] |}
    with
    | (Ret _, u) => (Raise KeyError, u)
    | (Raise e, u) => (Raise e, u)
    end.
Proof.
  apply (album_card_without_link_raises (R := ascii_runtime)
           (lit "https://x.yupoo.com/albums") (lit "https://x.yupoo.com")
           (lit "Images/c") 1
           (world_of_replies [page_reply sample_broken_category_page])
           {| status := 200; html := sample_broken_category_page; chunks := [];
              complete := true |}
           [] [] []
           (Tag (lit "a") [lit "album__main"] [(lit "title", lit "Spring/Summer")] []));
    vm_compute; reflexivity.
Defined.

(** X16 in the folder Images/c. *)
Lemma paths_stay_below_witness :
  @isalnum ascii_runtime SLASH = false
  /\ (forall page image_name,
        destination_path (R := ascii_runtime) (lit "Images/c") page image_name
        = (if bool_decide (lit "Images/c" = []) || endswith (lit "Images/c") [SLASH]
           then lit "Images/c" else lit "Images/c" ++ [SLASH])
          ++ sanitize_folder_name (R := ascii_runtime)
               (str_of_int page ++ lit "_" ++ image_name)
          ++ lit ".jpg"
        /\ ~ In SLASH
             (sanitize_folder_name (R := ascii_runtime)
                (str_of_int page ++ lit "_" ++ image_name)
              ++ lit ".jpg")).
Proof.
  split; [reflexivity|].
  exact (proj2 (paths_stay_below (R := ascii_runtime) eq_refl (lit "Images/c"))).
Defined.
